(** * digigurdy-baz: string voices and mute cyclers

    A shallow embedding of [src/gurdystring.cpp] (class [GurdyString]) and
    [src/exfunctions.cpp] (the four mute cyclers), with the constants of
    [src/config.h], and the properties of the specification that concern
    them.

    Conventions.
    - A C++ [int] is a [Z]; arithmetic on it goes through [Int.add] and
      friends, which write out the 32-bit two's-complement wrap-around of
      the ARM target.
    - Every call on a sound transport ([usbMIDI], [MIDI], [trigger_obj]) or
      on the display is recorded as an [event]; a method is a function from
      the object to a result, the updated object and the events it emitted,
      in call order.
    - The three build configurations that [#if] selects between are the
      values of [build]. *)

From Stdlib Require Import ZArith QArith List String Bool Lia.
Import ListNotations.
Local Open Scope Z_scope.

(** ** C++ [int] *)

Module Int.

Definition min : Z := - 2 ^ 31.
Definition max : Z := 2 ^ 31 - 1.

Definition in_range (z : Z) : Prop := min <= z <= max.

Definition wrap (z : Z) : Z := (z + 2 ^ 31) mod 2 ^ 32 - 2 ^ 31.

Definition add (a b : Z) : Z := wrap (a + b).
Definition sub (a b : Z) : Z := wrap (a - b).
Definition mul (a b : Z) : Z := wrap (a * b).

End Int.

(** [int(x)] on a floating-point [x]: truncation toward zero.  The values
    it is applied to below are computed exactly by the hardware (see
    [trigger_gain]), so they are modelled as rationals. *)
Definition int_of_Q (x : Q) : Z := Z.quot (Qnum x) (Z.pos (Qden x)).

(** ** Events: what the firmware sends to its collaborators *)

(** The two MIDI outputs: [usbMIDI] and the serial [MIDI] object. *)
Inductive midi_port : Type := usbMIDI | MIDI.

Inductive midi_msg : Type :=
| sendNoteOn (note velocity channel : Z)
| sendNoteOff (note velocity channel : Z)
| sendControlChange (control value channel : Z)
| sendProgramChange (program channel : Z)
| sendPitchBend (value channel : Z).

(** Calls on [trigger_obj] (WAV Trigger or Tsunami).  [trackPlayPoly] has
    an output argument on the Tsunami only. *)
Inductive trigger_cmd : Type :=
| trackGain (trk gain : Z)
| trackPlayPoly (trk : Z) (out : option Z) (lock : bool)
| trackLoop (trk : Z) (enable : bool)
| trackFade (trk gain time : Z) (stopFlag : bool)
| stopAllTracks.

Inductive display_cmd : Type :=
| draw_play_screen (note screen_type : Z) (redraw : bool)
| print_display (string1 string2 string3 string4 tpose capo offset : Z)
                (mute1 mute2 mute3 mute4 : bool).

Inductive event : Type :=
| Midi (p : midi_port) (m : midi_msg)
| Trigger (c : trigger_cmd)
| Display (d : display_cmd).

(** ** Build configuration ([src/config.h]) *)

(** [USE_TRIGGER] and [USE_TSUNAMI] are exclusive; with neither, the serial
    MIDI output is compiled in. *)
Inductive build : Type := MIDI_OUT | USE_TRIGGER | USE_TSUNAMI.

(** Both macros are commented out in [config.h]. *)
Definition config_h_build : build := MIDI_OUT.

Definition TSUNAMI_OUT : Z := 0.
Definition MELODY_VIBRATO : Z := 16.

Definition VOL_THRESHOLD : Z := 5.
Definition MAX_SPIN : Z := 7600.
Definition SPIN_WEIGHT : Z := 2500.
Definition SPIN_DECAY : Z := 200.
Definition SPIN_THRESHOLD : Z := 5001.
Definition SPIN_STOP_THRESHOLD : Z := 1000.

(** ** A small state-and-trace monad

    [Eff S A]: a computation over a mutable [S] that returns an [A] and
    appends events to the trace. *)

Definition Eff (S A : Type) : Type := S -> A * S * list event.

Definition ret {S A : Type} (a : A) : Eff S A := fun s => (a, s, []).

Definition bind {S A B : Type} (m : Eff S A) (k : A -> Eff S B) : Eff S B :=
  fun s =>
    let '(a, s1, e1) := m s in
    let '(b, s2, e2) := k a s1 in
    (b, s2, e1 ++ e2).

Definition gets {S A : Type} (f : S -> A) : Eff S A := fun s => (f s, s, []).

Definition modify {S : Type} (f : S -> S) : Eff S unit :=
  fun s => (tt, f s, []).

Definition emit {S : Type} (e : event) : Eff S unit := fun s => (tt, s, [e]).

Definition when {S : Type} (b : bool) (m : Eff S unit) : Eff S unit :=
  if b then m else ret tt.

Declare Scope eff_scope.
Delimit Scope eff_scope with eff.
Notation "x <- m ;; k" := (bind m (fun x => k))
  (at level 61, m at next level, right associativity) : eff_scope.
Notation "m ;; k" := (bind m (fun _ => k))
  (at level 61, right associativity) : eff_scope.
Local Open Scope eff_scope.

Definition result {S A : Type} (r : A * S * list event) : A := fst (fst r).
Definition state {S A : Type} (r : A * S * list event) : S := snd (fst r).
Definition trace {S A : Type} (r : A * S * list event) : list event := snd r.

(** ** class GurdyString *)

Record GurdyString : Type := mkGurdyString {
  name : string;
  open_note : Z;
  midi_channel : Z;
  midi_volume : Z;
  trigger_volume : Z;
  note_being_played : Z;
  mute_on : bool;
  is_playing : bool
}.

Definition with_open_note (n : Z) (s : GurdyString) : GurdyString :=
  mkGurdyString (name s) n (midi_channel s) (midi_volume s)
    (trigger_volume s) (note_being_played s) (mute_on s) (is_playing s).

Definition with_volume (v t : Z) (s : GurdyString) : GurdyString :=
  mkGurdyString (name s) (open_note s) (midi_channel s) v t
    (note_being_played s) (mute_on s) (is_playing s).

Definition with_note_being_played (n : Z) (s : GurdyString) : GurdyString :=
  mkGurdyString (name s) (open_note s) (midi_channel s) (midi_volume s)
    (trigger_volume s) n (mute_on s) (is_playing s).

Definition with_mute_on (b : bool) (s : GurdyString) : GurdyString :=
  mkGurdyString (name s) (open_note s) (midi_channel s) (midi_volume s)
    (trigger_volume s) (note_being_played s) b (is_playing s).

Definition with_is_playing (b : bool) (s : GurdyString) : GurdyString :=
  mkGurdyString (name s) (open_note s) (midi_channel s) (midi_volume s)
    (trigger_volume s) (note_being_played s) (mute_on s) b.

(** [int((vol)/128.0 * 80 - 70)].  Dividing by 128 only changes the
    exponent, and [vol * 5 / 8 - 70] has a numerator far below 2^53 for
    every [int] (below 2^24 for a volume in 0..127), so each floating-point
    step is exact and the value converted is this rational. *)
Definition trigger_gain (vol : Z) : Z :=
  int_of_Q (inject_Z vol / inject_Z 128 * inject_Z 80 - inject_Z 70)%Q.

(** The track number of a note on the WAV Trigger or Tsunami:
    [note_being_played + (128 * (midi_channel - 1))]. *)
Definition track_of (s : GurdyString) : Z :=
  Int.add (note_being_played s) (Int.mul 128 (Int.sub (midi_channel s) 1)).

Section Voice.

(** The build the firmware was compiled for. *)
Variable cfg : build.

(** The constructor.  It leaves [mute_on] and [is_playing] to the member
    initialisers of the class declaration in [gurdystring.h], which is
    not part of the sources at hand: they are taken as [mute0] and
    [playing0]. *)
Definition GurdyString_new (mute0 playing0 : bool)
    (my_channel my_note : Z) (my_name : string) (my_vol : Z) : GurdyString :=
  {| name := my_name;
     open_note := my_note;
     midi_channel := my_channel;
     midi_volume := my_vol;
     trigger_volume := trigger_gain my_vol;
     note_being_played := my_note;
     mute_on := mute0;
     is_playing := playing0 |}.

Definition soundOn (my_offset my_modulation : Z) : Eff GurdyString unit :=
  n <- gets open_note ;;
  modify (with_note_being_played (Int.add n my_offset)) ;;
  mute <- gets mute_on ;;
  when (negb mute)
    (note <- gets note_being_played ;;
     vol <- gets midi_volume ;;
     ch <- gets midi_channel ;;
     trk <- gets track_of ;;
     tvol <- gets trigger_volume ;;
     emit (Midi usbMIDI (sendNoteOn note vol ch)) ;;
     match cfg with
     | MIDI_OUT => emit (Midi MIDI (sendNoteOn note vol ch))
     | USE_TRIGGER =>
         emit (Trigger (trackGain trk tvol)) ;;
         emit (Trigger (trackPlayPoly trk None true)) ;;
         emit (Trigger (trackLoop trk true))
     | USE_TSUNAMI =>
         emit (Trigger (trackGain trk tvol)) ;;
         emit (Trigger (trackPlayPoly trk (Some TSUNAMI_OUT) true)) ;;
         emit (Trigger (trackLoop trk true))
     end ;;
     when (0 <? my_modulation)
       (emit (Midi usbMIDI (sendControlChange 1 my_modulation ch)) ;;
        match cfg with
        | MIDI_OUT => emit (Midi MIDI (sendControlChange 1 my_modulation ch))
        | USE_TRIGGER | USE_TSUNAMI => ret tt
        end)) ;;
  modify (with_is_playing true).

Definition soundOff : Eff GurdyString unit :=
  note <- gets note_being_played ;;
  vol <- gets midi_volume ;;
  ch <- gets midi_channel ;;
  trk <- gets track_of ;;
  tvol <- gets trigger_volume ;;
  emit (Midi usbMIDI (sendNoteOff note vol ch)) ;;
  match cfg with
  | MIDI_OUT => emit (Midi MIDI (sendNoteOff note vol ch))
  | USE_TRIGGER | USE_TSUNAMI =>
      if -60 <? tvol
      then emit (Trigger (trackFade trk (Int.sub tvol 10) 200 true))
      else emit (Trigger (trackFade trk (-70) 200 true))
  end ;;
  modify (with_is_playing false).

Definition soundKill : Eff GurdyString unit :=
  ch <- gets midi_channel ;;
  emit (Midi usbMIDI (sendControlChange 123 0 ch)) ;;
  match cfg with
  | MIDI_OUT => emit (Midi MIDI (sendControlChange 123 0 ch))
  | USE_TRIGGER | USE_TSUNAMI => emit (Trigger stopAllTracks)
  end ;;
  modify (with_is_playing false).

Definition getOpenNote : Eff GurdyString Z := gets open_note.

Definition setOpenNote (new_note : Z) : Eff GurdyString unit :=
  modify (with_open_note new_note).

Definition setVolume (vol : Z) : Eff GurdyString unit :=
  modify (with_volume vol (trigger_gain vol)).

Definition getVolume : Eff GurdyString Z := gets midi_volume.

Definition setMute (mute : bool) : Eff GurdyString unit :=
  modify (with_mute_on mute).

Definition getMute : Eff GurdyString bool := gets mute_on.

Definition isPlaying : Eff GurdyString bool := gets is_playing.

Definition getName : Eff GurdyString string := gets name.

(** Send [m] on [usbMIDI], and on [MIDI] where the build has it: the
    shape of the four controller pass-throughs. *)
Definition midi_passthrough (m : midi_msg) : Eff GurdyString unit :=
  emit (Midi usbMIDI m) ;;
  match cfg with
  | MIDI_OUT => emit (Midi MIDI m)
  | USE_TRIGGER | USE_TSUNAMI => ret tt
  end.

(** [program] is a [uint8_t]. *)
Definition setProgram (program : Z) : Eff GurdyString unit :=
  ch <- gets midi_channel ;;
  midi_passthrough (sendProgramChange (program mod 256) ch).

Definition setExpression (exp : Z) : Eff GurdyString unit :=
  ch <- gets midi_channel ;;
  midi_passthrough (sendControlChange 11 exp ch).

Definition setPitchBend (bend : Z) : Eff GurdyString unit :=
  ch <- gets midi_channel ;;
  midi_passthrough (sendPitchBend bend ch).

Definition setVibrato (vib : Z) : Eff GurdyString unit :=
  ch <- gets midi_channel ;;
  midi_passthrough (sendControlChange 1 vib ch).

End Voice.

(** ** The instrument's global state ([exfunctions.cpp]'s externs)

    The five [GurdyString *] globals point to five distinct objects, which
    live here; a pointer is the name of its field. *)

Record globals : Type := mkGlobals {
  mystring : GurdyString;
  mylowstring : GurdyString;
  mydrone : GurdyString;
  mytromp : GurdyString;
  mybuzz : GurdyString;
  mel_mode : Z;
  drone_mode : Z;
  t_mode : Z;
  tpose_offset : Z;
  capo_offset : Z;
  myoffset : Z;
  play_screen_type : Z
}.

Inductive string_ptr : Type :=
| p_mystring | p_mylowstring | p_mydrone | p_mytromp | p_mybuzz.

Definition deref (p : string_ptr) (g : globals) : GurdyString :=
  match p with
  | p_mystring => mystring g
  | p_mylowstring => mylowstring g
  | p_mydrone => mydrone g
  | p_mytromp => mytromp g
  | p_mybuzz => mybuzz g
  end.

Definition store (p : string_ptr) (s : GurdyString) (g : globals) : globals :=
  match p with
  | p_mystring =>
      mkGlobals s (mylowstring g) (mydrone g) (mytromp g) (mybuzz g)
        (mel_mode g) (drone_mode g) (t_mode g) (tpose_offset g)
        (capo_offset g) (myoffset g) (play_screen_type g)
  | p_mylowstring =>
      mkGlobals (mystring g) s (mydrone g) (mytromp g) (mybuzz g)
        (mel_mode g) (drone_mode g) (t_mode g) (tpose_offset g)
        (capo_offset g) (myoffset g) (play_screen_type g)
  | p_mydrone =>
      mkGlobals (mystring g) (mylowstring g) s (mytromp g) (mybuzz g)
        (mel_mode g) (drone_mode g) (t_mode g) (tpose_offset g)
        (capo_offset g) (myoffset g) (play_screen_type g)
  | p_mytromp =>
      mkGlobals (mystring g) (mylowstring g) (mydrone g) s (mybuzz g)
        (mel_mode g) (drone_mode g) (t_mode g) (tpose_offset g)
        (capo_offset g) (myoffset g) (play_screen_type g)
  | p_mybuzz =>
      mkGlobals (mystring g) (mylowstring g) (mydrone g) (mytromp g) s
        (mel_mode g) (drone_mode g) (t_mode g) (tpose_offset g)
        (capo_offset g) (myoffset g) (play_screen_type g)
  end.

Definition with_mel_mode (m : Z) (g : globals) : globals :=
  mkGlobals (mystring g) (mylowstring g) (mydrone g) (mytromp g) (mybuzz g)
    m (drone_mode g) (t_mode g) (tpose_offset g)
    (capo_offset g) (myoffset g) (play_screen_type g).

Definition with_drone_mode (m : Z) (g : globals) : globals :=
  mkGlobals (mystring g) (mylowstring g) (mydrone g) (mytromp g) (mybuzz g)
    (mel_mode g) m (t_mode g) (tpose_offset g)
    (capo_offset g) (myoffset g) (play_screen_type g).

Definition with_t_mode (m : Z) (g : globals) : globals :=
  mkGlobals (mystring g) (mylowstring g) (mydrone g) (mytromp g) (mybuzz g)
    (mel_mode g) (drone_mode g) m (tpose_offset g)
    (capo_offset g) (myoffset g) (play_screen_type g).

(** [p->method(...)]: run a method on the object [p] points to. *)
Definition call {A : Type} (p : string_ptr) (m : Eff GurdyString A)
  : Eff globals A :=
  fun g => let '(a, s, e) := m (deref p g) in (a, store p s g, e).

Notation "p ~> m" := (call p m) (at level 60, no associativity) : eff_scope.

(** ** The mute cyclers ([exfunctions.cpp])

    The modes are plain [int] globals.  [mel_mode]: 0 == high on, low on;
    1 == high on, low off; 2 == high off, low on.  [drone_mode]: 0 == both
    on; 1 == both off; 2 == drone on, tromp off; 3 == drone off, tromp on.
    [t_mode]: 0 == trompette on, 1 == trompette off. *)

Section Cyclers.

Variable cfg : build.

(** The cyclers call [soundOn()] without arguments.  The default arguments
    are given in [gurdystring.h], which is not part of the sources at hand,
    so they are parameters here; the comments in [gurdystring.cpp] (the
    offset is optional, modulation 0 is no modulation) suggest 0 and 0. *)
Variables soundOn_default_offset soundOn_default_modulation : Z.

Definition soundOn_ : Eff GurdyString unit :=
  soundOn cfg soundOn_default_offset soundOn_default_modulation.

(** The last statement of each of the four cyclers, the same text in all
    of them: redraw the play screen if [mystring] is playing, the idle
    status screen otherwise. *)
Definition refresh_display : Eff globals unit :=
  playing <- p_mystring ~> isPlaying ;;
  if playing then
    n <- p_mystring ~> getOpenNote ;;
    tp <- gets tpose_offset ;;
    off <- gets myoffset ;;
    pst <- gets play_screen_type ;;
    emit (Display (draw_play_screen (Int.add (Int.add n tp) off) pst false))
  else
    n1 <- p_mystring ~> getOpenNote ;;
    n2 <- p_mylowstring ~> getOpenNote ;;
    n3 <- p_mydrone ~> getOpenNote ;;
    n4 <- p_mytromp ~> getOpenNote ;;
    tp <- gets tpose_offset ;;
    cp <- gets capo_offset ;;
    off <- gets myoffset ;;
    m1 <- p_mystring ~> getMute ;;
    m2 <- p_mylowstring ~> getMute ;;
    m3 <- p_mydrone ~> getMute ;;
    m4 <- p_mytromp ~> getMute ;;
    emit (Display (print_display n1 n2 n3 n4 tp cp off m1 m2 m3 m4)).

Definition cycle_mel_mute : Eff globals unit :=
  m <- gets mel_mode ;;
  (if m =? 0 then
     modify (with_mel_mode 1) ;;
     p_mystring ~> setMute false ;;
     p_mylowstring ~> setMute true ;;
     playing <- p_mylowstring ~> isPlaying ;;
     when playing
       (p_mylowstring ~> soundOff cfg ;;
        p_mylowstring ~> soundOn_)
   else if m =? 1 then
     modify (with_mel_mode 2) ;;
     p_mystring ~> setMute true ;;
     p_mylowstring ~> setMute false ;;
     playing <- p_mystring ~> isPlaying ;;
     when playing
       (p_mystring ~> soundOff cfg ;;
        p_mystring ~> soundOn_ ;;
        p_mylowstring ~> soundOff cfg ;;
        p_mylowstring ~> soundOn_)
   else if m =? 2 then
     modify (with_mel_mode 0) ;;
     p_mystring ~> setMute false ;;
     p_mylowstring ~> setMute false ;;
     playing <- p_mystring ~> isPlaying ;;
     when playing
       (p_mystring ~> soundOff cfg ;;
        p_mystring ~> soundOn_)
   else ret tt) ;;
  refresh_display.

Definition cycle_drone_tromp_mute : Eff globals unit :=
  m <- gets drone_mode ;;
  (if m =? 0 then
     modify (with_drone_mode 1) ;;
     p_mydrone ~> setMute true ;;
     p_mytromp ~> setMute true ;;
     p_mybuzz ~> setMute true ;;
     playing <- p_mydrone ~> isPlaying ;;
     when playing
       (p_mydrone ~> soundOff cfg ;;
        p_mydrone ~> soundOn_ ;;
        p_mytromp ~> soundOff cfg ;;
        p_mytromp ~> soundOn_)
   else if m =? 1 then
     modify (with_drone_mode 2) ;;
     p_mydrone ~> setMute false ;;
     p_mytromp ~> setMute true ;;
     p_mybuzz ~> setMute true ;;
     playing <- p_mydrone ~> isPlaying ;;
     when playing
       (p_mydrone ~> soundOff cfg ;;
        p_mydrone ~> soundOn_)
   else if m =? 2 then
     modify (with_drone_mode 3) ;;
     p_mydrone ~> setMute true ;;
     p_mytromp ~> setMute false ;;
     p_mybuzz ~> setMute false ;;
     playing <- p_mydrone ~> isPlaying ;;
     when playing
       (p_mydrone ~> soundOff cfg ;;
        p_mydrone ~> soundOn_ ;;
        p_mytromp ~> soundOff cfg ;;
        p_mytromp ~> soundOn_)
   else if m =? 3 then
     modify (with_drone_mode 0) ;;
     p_mydrone ~> setMute false ;;
     p_mytromp ~> setMute false ;;
     p_mybuzz ~> setMute false ;;
     playing <- p_mydrone ~> isPlaying ;;
     when playing
       (p_mydrone ~> soundOff cfg ;;
        p_mydrone ~> soundOn_)
   else ret tt) ;;
  refresh_display.

Definition cycle_drone_mute : Eff globals unit :=
  m <- gets drone_mode ;;
  (if (m =? 0) || (m =? 2) then
     (if m =? 0 then modify (with_drone_mode 3)
      else modify (with_drone_mode 1)) ;;
     p_mydrone ~> setMute true ;;
     playing <- p_mydrone ~> isPlaying ;;
     when playing
       (p_mydrone ~> soundOff cfg ;;
        p_mydrone ~> soundOn_)
   else if (m =? 1) || (m =? 3) then
     (if m =? 1 then modify (with_drone_mode 2)
      else modify (with_drone_mode 0)) ;;
     p_mydrone ~> setMute false ;;
     playing <- p_mydrone ~> isPlaying ;;
     when playing
       (p_mydrone ~> soundOff cfg ;;
        p_mydrone ~> soundOn_)
   else ret tt) ;;
  refresh_display.

Definition cycle_tromp_mute : Eff globals unit :=
  m <- gets t_mode ;;
  (if m =? 0 then
     modify (with_t_mode 1) ;;
     p_mytromp ~> setMute true ;;
     p_mybuzz ~> setMute true ;;
     playing <- p_mytromp ~> isPlaying ;;
     when playing
       (p_mytromp ~> soundOff cfg ;;
        p_mytromp ~> soundOn_)
   else if m =? 1 then
     modify (with_t_mode 0) ;;
     p_mytromp ~> setMute false ;;
     p_mybuzz ~> setMute false ;;
     playing <- p_mytromp ~> isPlaying ;;
     when playing
       (p_mytromp ~> soundOff cfg ;;
        p_mytromp ~> soundOn_)
   else ret tt) ;;
  refresh_display.

(** The four operations as one type, to speak of sequences of them. *)
Inductive mute_op : Type :=
| op_cycle_mel_mute
| op_cycle_drone_tromp_mute
| op_cycle_drone_mute
| op_cycle_tromp_mute.

Definition run_op (o : mute_op) : Eff globals unit :=
  match o with
  | op_cycle_mel_mute => cycle_mel_mute
  | op_cycle_drone_tromp_mute => cycle_drone_tromp_mute
  | op_cycle_drone_mute => cycle_drone_mute
  | op_cycle_tromp_mute => cycle_tromp_mute
  end.

Fixpoint run_ops (os : list mute_op) : Eff globals unit :=
  match os with
  | [] => ret tt
  | o :: os' => run_op o ;; run_ops os'
  end.

End Cyclers.

(** ** The geared-crank spin accumulator *)

(** Modelled from the spec: the spin update of the geared crank, whose
    source ([gearcrank.cpp]) is not among the files at hand; only its
    constants are, in [config.h].  Section 4.4: if the sampled voltage
    exceeds the motion threshold, the accumulator grows by a fixed weight,
    capped at a maximum; otherwise it shrinks by a fixed decay, floored at
    zero. *)
Definition spin_update (spin voltage : Z) : Z :=
  if VOL_THRESHOLD <? voltage
  then Z.min (spin + SPIN_WEIGHT) MAX_SPIN
  else Z.max (spin - SPIN_DECAY) 0.

(** One update per sample, oldest first. *)
Definition spin_run (spin : Z) (voltages : list Z) : Z :=
  fold_left spin_update voltages spin.

(** ** Reading a trace *)

Definition port_eqb (p q : midi_port) : bool :=
  match p, q with
  | usbMIDI, usbMIDI | MIDI, MIDI => true
  | _, _ => false
  end.

(** The MIDI outputs a build sends notes to. *)
Definition has_port (cfg : build) (p : midi_port) : bool :=
  match p, cfg with
  | usbMIDI, _ => true
  | MIDI, MIDI_OUT => true
  | MIDI, _ => false
  end.

(** The note-off messages of a trace, in order, on every port. *)
Definition note_offs (es : list event) : list (midi_port * midi_msg) :=
  flat_map (fun e =>
              match e with
              | Midi p (sendNoteOff n v c) => [(p, sendNoteOff n v c)]
              | _ => []
              end) es.

(** The note-off messages a trace sends on port [p]. *)
Definition note_offs_on (p : midi_port) (es : list event) : list midi_msg :=
  map snd (filter (fun pm => port_eqb p (fst pm)) (note_offs es)).

(** The note-on messages of a trace, in order, on every port. *)
Definition note_ons (es : list event) : list (midi_port * midi_msg) :=
  flat_map (fun e =>
              match e with
              | Midi p (sendNoteOn n v c) => [(p, sendNoteOn n v c)]
              | _ => []
              end) es.

(** What reaches a sound transport: everything but the display calls. *)
Definition sound_events (es : list event) : list event :=
  filter (fun e => match e with Display _ => false | _ => true end) es.

(** A run of [setOpenNote] calls, as a transposition or a capo change
    makes them. *)
Fixpoint setOpenNotes (ns : list Z) : Eff GurdyString unit :=
  match ns with
  | [] => ret tt
  | n :: ns' => setOpenNote n ;; setOpenNotes ns'
  end.

(** ** Reading the modes

    What a mode value says about each voice, after the comments on the
    assignments in [exfunctions.cpp]. *)

(** [mel_mode]: 2 == high off. *)
Definition high_muted_in (m : Z) : bool := m =? 2.

(** [mel_mode]: 1 == low off. *)
Definition low_muted_in (m : Z) : bool := m =? 1.

(** [drone_mode]: 1 == both off, 3 == drone off. *)
Definition drone_muted_in (m : Z) : bool := (m =? 1) || (m =? 3).

(** [drone_mode]: 1 == both off, 2 == tromp off. *)
Definition tromp_muted_in (m : Z) : bool := (m =? 1) || (m =? 2).

(** The melody mode is one of its three values and the two melody voices
    are muted as it says. *)
Definition mel_consistent (g : globals) : Prop :=
  0 <= mel_mode g <= 2 /\
  mute_on (mystring g) = high_muted_in (mel_mode g) /\
  mute_on (mylowstring g) = low_muted_in (mel_mode g).

(** The voice whose [isPlaying()] a cycler tests, in the branch it takes
    from [g]; none when the mode is outside the values it handles. *)
Definition representative (o : mute_op) (g : globals) : option string_ptr :=
  match o with
  | op_cycle_mel_mute =>
      if mel_mode g =? 0 then Some p_mylowstring
      else if (mel_mode g =? 1) || (mel_mode g =? 2) then Some p_mystring
      else None
  | op_cycle_drone_tromp_mute | op_cycle_drone_mute =>
      if (0 <=? drone_mode g) && (drone_mode g <=? 3) then Some p_mydrone
      else None
  | op_cycle_tromp_mute =>
      if (t_mode g =? 0) || (t_mode g =? 1) then Some p_mytromp else None
  end.

(** The events of one [soundOn] and of one [soundOff]. *)
Definition soundOn_events (cfg : build) (o m : Z) (s : GurdyString)
  : list event := trace (soundOn cfg o m s).

Definition soundOff_events (cfg : build) (s : GurdyString) : list event :=
  trace (soundOff cfg s).

(** The note-on messages a trace sends on port [p]. *)
Definition note_ons_on (p : midi_port) (es : list event) : list midi_msg :=
  map snd (filter (fun pm => port_eqb p (fst pm)) (note_ons es)).

(** ** Example states *)

(** A voice as the constructor makes it, at volume 70, unmuted and silent. *)
Definition demo_string (ch note : Z) (nm : string) : GurdyString :=
  GurdyString_new false false ch note nm 70.

(** An instrument at rest: every voice unmuted and silent, every mode 0,
    no transposition, no capo, no key pressed. *)
Definition demo_globals : globals :=
  mkGlobals (demo_string 1 67 "Hi Melody") (demo_string 2 55 "Low Melody")
    (demo_string 4 36 "Drone") (demo_string 3 48 "Trompette")
    (demo_string 5 60 "Buzz") 0 0 0 0 0 0 0.

(** The same instrument with drone, trompette and buzz muted
    ([drone_mode] 1, both off). *)
Definition demo_drones_off : globals :=
  mkGlobals (demo_string 1 67 "Hi Melody") (demo_string 2 55 "Low Melody")
    (with_mute_on true (demo_string 4 36 "Drone"))
    (with_mute_on true (demo_string 3 48 "Trompette"))
    (with_mute_on true (demo_string 5 60 "Buzz")) 0 1 0 0 0 0 0.

(** The instrument being played with the fifth key down ([myoffset] 5) in
    melody mode 2 (high off, low on): both melody voices were started with
    [soundOn(5, MELODY_VIBRATO)], so the high voice tracks note 72 (muted)
    and the low voice sounds note 60; drone and trompette sound their open
    notes. *)
Definition demo_playing_key5 : globals :=
  mkGlobals
    (mkGurdyString "Hi Melody" 67 1 70 (trigger_gain 70) 72 true true)
    (mkGurdyString "Low Melody" 55 2 70 (trigger_gain 70) 60 false true)
    (mkGurdyString "Drone" 36 4 70 (trigger_gain 70) 36 false true)
    (mkGurdyString "Trompette" 48 3 70 (trigger_gain 70) 48 false true)
    (mkGurdyString "Buzz" 60 5 70 (trigger_gain 70) 60 false false)
    2 0 0 0 0 5 0.

(** ** The keybox layout ([config.h]) *)

(** [pin_array]: index 0 is unused; index [k] is the key that raises the
    note by [k] semitones. *)
Definition pin_array : list Z :=
  [-1; 2; 24; 3; 25; 26; 4; 27; 5; 28; 29; 6; 30;
   7; 31; 8; 32; 33; 18; 34; 19; 35; 36; 20; 37].

Definition num_keys : Z := 24.

Definition X_INDEX : Z := 0.
Definition A_INDEX : Z := Int.sub num_keys 2.
Definition B_INDEX : Z := Int.sub num_keys 5.
Definition BUTTON_1_INDEX : Z := 1.
Definition BUTTON_2_INDEX : Z := 3.
Definition BUTTON_3_INDEX : Z := 4.
Definition BUTTON_4_INDEX : Z := 6.
Definition BUTTON_5_INDEX : Z := 8.
Definition BUTTON_6_INDEX : Z := 9.
Definition TPOSE_UP_INDEX : Z := Int.sub num_keys 1.
Definition TPOSE_DN_INDEX : Z := Int.sub num_keys 3.

(** The keys that have a role besides their note. *)
Definition role_indexes : list Z :=
  [X_INDEX; A_INDEX; B_INDEX; BUTTON_1_INDEX; BUTTON_2_INDEX;
   BUTTON_3_INDEX; BUTTON_4_INDEX; BUTTON_5_INDEX; BUTTON_6_INDEX;
   TPOSE_UP_INDEX; TPOSE_DN_INDEX].

(** ** More ways to read a trace and to run operations *)

(** The display calls of a trace. *)
Definition display_events (es : list event) : list display_cmd :=
  flat_map (fun e => match e with Display c => [c] | _ => [] end) es.

(** The calls on [trigger_obj] of a trace. *)
Definition trigger_events (es : list event) : list trigger_cmd :=
  flat_map (fun e => match e with Trigger c => [c] | _ => [] end) es.

(** The same operation [n] times in a row. *)
Fixpoint times {St : Type} (n : nat) (m : Eff St unit) : Eff St unit :=
  match n with
  | O => ret tt
  | S n' => m ;; times n' m
  end.

(** A MIDI note number and a MIDI channel as the firmware uses them. *)
Definition midi_note (n : Z) : Prop := 0 <= n <= 127.
Definition midi_chan (c : Z) : Prop := 1 <= c <= 16.

(** The branches of the cyclers that only mute: every voice they
    re-trigger has just been muted. *)
Definition mutes_only (o : mute_op) (g : globals) : bool :=
  match o with
  | op_cycle_mel_mute => mel_mode g =? 0
  | op_cycle_drone_tromp_mute => drone_mode g =? 0
  | op_cycle_drone_mute => (drone_mode g =? 0) || (drone_mode g =? 2)
  | op_cycle_tromp_mute => t_mode g =? 0
  end.

(** The instrument at rest in melody mode 1 (high on, low off), except
    that the high melody voice alone has been started. *)
Definition demo_high_started : globals :=
  mkGlobals
    (mkGurdyString "Hi Melody" 67 1 70 (trigger_gain 70) 67 false true)
    (mkGurdyString "Low Melody" 55 2 70 (trigger_gain 70) 55 true false)
    (demo_string 4 36 "Drone") (demo_string 3 48 "Trompette")
    (demo_string 5 60 "Buzz") 1 0 0 0 0 0 0.

(** The drone mode is one of its four values and the drone, the
    trompette and the buzz are muted as it says. *)
Definition drone_consistent (g : globals) : Prop :=
  0 <= drone_mode g <= 3 /\
  mute_on (mydrone g) = drone_muted_in (drone_mode g) /\
  mute_on (mytromp g) = tromp_muted_in (drone_mode g) /\
  mute_on (mybuzz g) = tromp_muted_in (drone_mode g).

(** * Properties *)

(** ** [int] arithmetic *)

Lemma Int_wrap_in_range (z : Z) : Int.in_range (Int.wrap z).
Proof.
  unfold Int.in_range, Int.wrap, Int.min, Int.max.
  pose proof (Z.mod_pos_bound (z + 2 ^ 31) (2 ^ 32) ltac:(lia)). lia.
Qed.

Lemma Int_wrap_exact (z : Z) : Int.in_range z -> Int.wrap z = z.
Proof.
  unfold Int.in_range, Int.wrap, Int.min, Int.max. intros H.
  rewrite Z.mod_small by lia. lia.
Qed.

Lemma Int_add_exact (a b : Z) : Int.in_range (a + b) -> Int.add a b = a + b.
Proof. apply Int_wrap_exact. Qed.

Lemma Int_add_0_r (a : Z) : Int.in_range a -> Int.add a 0 = a.
Proof. intros H. unfold Int.add. rewrite Z.add_0_r. now apply Int_wrap_exact. Qed.

(** ** The trigger gain *)

Lemma trigger_gain_quot (v : Z) : trigger_gain v = Z.quot (5 * v - 560) 8.
Proof.
  unfold trigger_gain, int_of_Q.
  transitivity (Z.quot (v * 1 * 80 * 1 + -8960) 128); [reflexivity|].
  replace (v * 1 * 80 * 1 + -8960) with ((5 * v - 560) * 16) by ring.
  change 128 with (8 * 16).
  apply Z.quot_mul_cancel_r; lia.
Qed.

(** The gain is the truncation toward zero of [5 v / 8 - 70]: the integer
    next to it on the side of zero. *)
Lemma trigger_gain_truncates (v : Z) :
  let g := trigger_gain v in
  (0 <= 5 * v - 560 -> 8 * g <= 5 * v - 560 < 8 * (g + 1)) /\
  (5 * v - 560 <= 0 -> 8 * (g - 1) < 5 * v - 560 <= 8 * g).
Proof.
  cbv zeta. rewrite trigger_gain_quot.
  split; intros H; Z.to_euclidean_division_equations; lia.
Qed.

Lemma trigger_gain_bounds (v : Z) :
  0 <= v <= 127 -> -70 <= trigger_gain v <= 9.
Proof.
  intros H. rewrite trigger_gain_quot.
  Z.to_euclidean_division_equations; lia.
Qed.

(** C10.  For a volume [v] in 0..127 given to the constructor or to
    [setVolume], the trigger gain stored is the truncation toward zero of
    [v/128 * 80 - 70] and lies in -70..9; [getVolume] then returns [v];
    [setVolume] emits nothing and leaves the name, open note, channel,
    tracked note, mute flag and playing flag as they were. *)
Theorem setVolume_trigger_gain
    (v : Z) (s : GurdyString)
    (mute0 playing0 : bool) (my_channel my_note : Z) (my_name : string) :
  0 <= v <= 127 ->
  let c := GurdyString_new mute0 playing0 my_channel my_note my_name v in
  let r := setVolume v s in
  let g := int_of_Q (inject_Z v / inject_Z 128 * inject_Z 80 - inject_Z 70)%Q in
  (trigger_volume c = g /\ trigger_volume (state r) = g) /\
  (g = Z.quot (5 * v - 560) 8 /\
   (0 <= 5 * v - 560 -> 8 * g <= 5 * v - 560 < 8 * (g + 1)) /\
   (5 * v - 560 <= 0 -> 8 * (g - 1) < 5 * v - 560 <= 8 * g)) /\
  -70 <= g <= 9 /\
  (result (getVolume c) = v /\ result (getVolume (state r)) = v) /\
  trace r = [] /\
  (name (state r) = name s /\
   open_note (state r) = open_note s /\
   midi_channel (state r) = midi_channel s /\
   note_being_played (state r) = note_being_played s /\
   mute_on (state r) = mute_on s /\
   is_playing (state r) = is_playing s).
Proof.
  intros Hv c r g.
  change g with (trigger_gain v).
  pose proof (trigger_gain_truncates v) as [Hpos Hneg].
  split; [split; reflexivity|].
  split; [split; [apply trigger_gain_quot | split; assumption]|].
  split; [apply (trigger_gain_bounds v Hv)|].
  split; [split; reflexivity|].
  split; [reflexivity|].
  destruct s; repeat split.
Qed.

Lemma setVolume_trigger_gain_witness :
  trigger_volume (state (setVolume 112 (GurdyString_new false false 1 60 "Hi Melody" 70))) = 0.
Proof.
  pose proof (setVolume_trigger_gain 112
                (GurdyString_new false false 1 60 "Hi Melody" 70)
                false false 1 60 "Hi Melody" ltac:(lia)) as H.
  cbv zeta in H. destruct H as [[_ H] _]. rewrite H. reflexivity.
Defined.

(** ** [soundOn] and [soundOff] *)

Lemma soundOn_state (cfg : build) (o m : Z) (s : GurdyString) :
  state (soundOn cfg o m s)
  = with_is_playing true (with_note_being_played (Int.add (open_note s) o) s).
Proof.
  destruct s as [nm n ch v tv nb mu pl].
  destruct cfg, mu, (0 <? m) eqn:E;
    cbv [soundOn state bind gets modify emit when ret negb fst snd
         with_is_playing with_note_being_played open_note mute_on
         note_being_played midi_volume midi_channel trigger_volume name
         is_playing];
    rewrite ?E; reflexivity.
Qed.

Lemma setOpenNotes_state (ns : list Z) (s : GurdyString) :
  let s' := state (setOpenNotes ns s) in
  note_being_played s' = note_being_played s /\
  midi_volume s' = midi_volume s /\
  midi_channel s' = midi_channel s /\
  trigger_volume s' = trigger_volume s /\
  mute_on s' = mute_on s /\
  is_playing s' = is_playing s /\
  trace (setOpenNotes ns s) = [].
Proof.
  revert s. induction ns as [|n ns IH]; intros s.
  - cbn. repeat split.
  - specialize (IH (with_open_note n s)).
    cbv zeta in *.
    change (setOpenNotes (n :: ns) s)
      with (bind (setOpenNote n) (fun _ => setOpenNotes ns) s).
    unfold bind, setOpenNote, modify.
    destruct (setOpenNotes ns (with_open_note n s)) as [[u s'] e].
    cbn in *. exact IH.
Qed.

Lemma soundOff_run (cfg : build) (s : GurdyString) :
  state (soundOff cfg s) = with_is_playing false s /\
  trace (soundOff cfg s)
  = Midi usbMIDI
      (sendNoteOff (note_being_played s) (midi_volume s) (midi_channel s))
    :: match cfg with
       | MIDI_OUT =>
           [Midi MIDI
              (sendNoteOff (note_being_played s) (midi_volume s)
                 (midi_channel s))]
       | USE_TRIGGER | USE_TSUNAMI =>
           [Trigger
              (trackFade (track_of s)
                 (if -60 <? trigger_volume s
                  then Int.sub (trigger_volume s) 10 else -70)
                 200 true)]
       end.
Proof.
  destruct s as [nm n ch v tv nb mu pl].
  destruct cfg; cbn -[Int.sub track_of Z.ltb];
    try destruct (-60 <? tv); split; reflexivity.
Qed.

Lemma soundOn_trace_no_note_off (cfg : build) (o m : Z) (s : GurdyString) :
  note_offs (trace (soundOn cfg o m s)) = [].
Proof.
  destruct s as [nm n ch v tv nb mu pl].
  destruct cfg, mu, (0 <? m) eqn:E;
    cbv [soundOn trace bind gets modify emit when ret negb fst snd
         with_is_playing with_note_being_played open_note mute_on
         note_being_played midi_volume midi_channel trigger_volume name
         is_playing];
    rewrite ?E; reflexivity.
Qed.

(** C1, as the code has it.  [soundOn(o, m)], then any [setOpenNote]
    calls, then [soundOff()]: the voice is not playing, and [soundOff]
    emitted one note-off on each MIDI output of the build, for the note
    [open_note + o] that [soundOn] recorded, at the voice's volume and
    channel, whether the voice is muted or not.  The outputs are [usbMIDI]
    in every build and [MIDI] besides in the MIDI-OUT build, so the
    note-offs number two in the MIDI-OUT build and one in the WAV Trigger
    and Tsunami builds; [soundOn] and [setOpenNote] send none. *)
Theorem soundOn_soundOff_note_off
    (cfg : build) (s : GurdyString) (o m : Z) (retunings : list Z) :
  let r1 := soundOn cfg o m s in
  let r2 := setOpenNotes retunings (state r1) in
  let r3 := soundOff cfg (state r2) in
  let off := sendNoteOff (Int.add (open_note s) o)
               (midi_volume s) (midi_channel s) in
  result (isPlaying (state r3)) = false /\
  note_being_played (state r1) = Int.add (open_note s) o /\
  note_offs (trace r1) = [] /\
  note_offs (trace r2) = [] /\
  (forall p, has_port cfg p = true -> note_offs_on p (trace r3) = [off]) /\
  (forall p, has_port cfg p = false -> note_offs_on p (trace r3) = []) /\
  (forall pm, In pm (note_offs (trace r3)) -> snd pm = off) /\
  (Int.in_range (open_note s + o) ->
   Int.add (open_note s) o = open_note s + o) /\
  List.length (note_offs (trace r3))
  = match cfg with
    | MIDI_OUT => 2%nat
    | USE_TRIGGER | USE_TSUNAMI => 1%nat
    end.
Proof.
  intros r1 r2 r3 off.
  pose proof (setOpenNotes_state retunings (state r1))
    as (Hnb & Hv & Hch & _ & _ & _ & Htr).
  fold r2 in Hnb, Hv, Hch, Htr.
  destruct (soundOff_run cfg (state r2)) as [Hst Hoff].
  fold r3 in Hst, Hoff.
  assert (Hmsg : sendNoteOff (note_being_played (state r2))
                   (midi_volume (state r2)) (midi_channel (state r2)) = off).
  { rewrite Hnb, Hv, Hch. unfold r1. rewrite soundOn_state.
    destruct s; reflexivity. }
  rewrite Hmsg in Hoff.
  split; [rewrite Hst; reflexivity|].
  split; [unfold r1; rewrite soundOn_state; destruct s; reflexivity|].
  split; [apply soundOn_trace_no_note_off|].
  split; [rewrite Htr; reflexivity|].
  rewrite Hoff. clear Hmsg Hoff. subst off.
  split; [|split].
  - intros p Hp. destruct cfg, p; try discriminate Hp; reflexivity.
  - intros p Hp. destruct cfg, p; try discriminate Hp; reflexivity.
  - split; [|split; [apply Int_add_exact | destruct cfg; reflexivity]].
    intros pm Hin. destruct cfg; cbn in Hin;
      repeat (destruct Hin as [<- | Hin]; [reflexivity|]); contradiction.
Qed.

(** C1 as stated fails in the build that [config.h] selects: there
    [soundOff] sends the note-off twice, once on [usbMIDI] and once on
    [MIDI], and not exactly once. *)
Lemma soundOn_soundOff_two_note_offs :
  let s := demo_string 1 67 "Hi Melody" in
  let r1 := soundOn config_h_build 5 16 s in
  let r3 := soundOff config_h_build (state r1) in
  note_offs (trace r3)
  = [(usbMIDI, sendNoteOff 72 70 1); (MIDI, sendNoteOff 72 70 1)] /\
  List.length (note_offs (trace r3)) <> 1%nat.
Proof.
  cbv zeta. split; [reflexivity | discriminate].
Qed.

Lemma soundOn_soundOff_note_off_witness :
  let s := mkGurdyString "Hi Melody" 67 1 70 (trigger_gain 70) 67 true false in
  let r1 := soundOn MIDI_OUT 5 16 s in
  let r2 := setOpenNotes [69; 62] (state r1) in
  let r3 := soundOff MIDI_OUT (state r2) in
  note_offs_on usbMIDI (trace r3) = [sendNoteOff 72 70 1] /\
  note_offs_on MIDI (trace r3) = [sendNoteOff 72 70 1].
Proof.
  pose proof (soundOn_soundOff_note_off MIDI_OUT
                (mkGurdyString "Hi Melody" 67 1 70 (trigger_gain 70) 67
                   true false) 5 16 [69; 62])
    as (_ & _ & _ & _ & H & _).
  cbv zeta in *.
  split; [exact (H usbMIDI eq_refl) | exact (H MIDI eq_refl)].
Defined.

(** C2.  [soundOn] on a muted voice sends nothing at all, on any transport
    (no note-on, no CC1), and still records the note [open_note + offset]
    and sets the playing flag, so that [isPlaying()] answers true. *)
Theorem soundOn_muted_silent
    (cfg : build) (s : GurdyString) (my_offset my_modulation : Z) :
  mute_on s = true ->
  let r := soundOn cfg my_offset my_modulation s in
  trace r = [] /\
  is_playing (state r) = true /\
  note_being_played (state r) = Int.add (open_note s) my_offset /\
  result (isPlaying (state r)) = true.
Proof.
  intros Hmute r. unfold r.
  split.
  - destruct s as [nm n ch v tv nb mu pl]. cbn in Hmute. subst mu.
    destruct cfg; reflexivity.
  - rewrite soundOn_state. destruct s; repeat split.
Qed.

Lemma soundOn_muted_silent_witness :
  trace (soundOn MIDI_OUT 5 16
           (mkGurdyString "Hi Melody" 60 1 70 (-27) 60 true false)) = [].
Proof.
  apply (soundOn_muted_silent MIDI_OUT
           (mkGurdyString "Hi Melody" 60 1 70 (-27) 60 true false) 5 16).
  reflexivity.
Defined.

(** ** The spin accumulator *)

(** C9.  From spin 0, three samples above the motion threshold bring the
    spin to 2500, 5000 and 7500; a fourth brings it to the cap of 7600
    ([MAX_SPIN]), not to 10000. *)
Theorem spin_three_samples_then_cap (v1 v2 v3 v4 : Z) :
  VOL_THRESHOLD < v1 -> VOL_THRESHOLD < v2 ->
  VOL_THRESHOLD < v3 -> VOL_THRESHOLD < v4 ->
  SPIN_WEIGHT = 2500 /\ MAX_SPIN = 7600 /\
  spin_run 0 [v1] = 2500 /\
  spin_run 0 [v1; v2] = 5000 /\
  spin_run 0 [v1; v2; v3] = 7500 /\
  spin_run 0 [v1; v2; v3; v4] = 7600 /\
  spin_run 0 [v1; v2; v3; v4] <> 10000.
Proof.
  intros H1 H2 H3 H4.
  apply Z.ltb_lt in H1, H2, H3, H4.
  unfold spin_run, spin_update. cbn [fold_left].
  rewrite H1, H2, H3, H4.
  repeat split; try reflexivity. discriminate.
Qed.

Lemma spin_three_samples_then_cap_witness :
  spin_run 0 [6; 120; 1023] = 7500 /\ spin_run 0 [6; 120; 1023; 40] = 7600.
Proof.
  pose proof (spin_three_samples_then_cap 6 120 1023 40
                ltac:(reflexivity) ltac:(reflexivity)
                ltac:(reflexivity) ltac:(reflexivity))
    as (_ & _ & _ & _ & H3 & H4 & _).
  split; assumption.
Defined.

(** ** Running the cyclers *)

Lemma soundOn_eq (cfg : build) (o m : Z) (s : GurdyString) :
  soundOn cfg o m s
  = (tt,
     with_is_playing true (with_note_being_played (Int.add (open_note s) o) s),
     soundOn_events cfg o m s).
Proof.
  rewrite <- (soundOn_state cfg o m s). unfold soundOn_events, state, trace.
  destruct (soundOn cfg o m s) as [[[] s'] e]. reflexivity.
Qed.

Lemma soundOff_eq (cfg : build) (s : GurdyString) :
  soundOff cfg s = (tt, with_is_playing false s, soundOff_events cfg s).
Proof.
  rewrite <- (proj1 (soundOff_run cfg s)). unfold soundOff_events, state, trace.
  destruct (soundOff cfg s) as [[[] s'] e]. reflexivity.
Qed.

(** Unfold one layer of the model, down to the calls of [soundOn] and
    [soundOff]. *)
Ltac exec_step :=
  cbv [state trace result
       cycle_mel_mute cycle_drone_tromp_mute cycle_drone_mute
       cycle_tromp_mute refresh_display run_op soundOn_
       call deref store bind gets modify emit when ret
       setMute isPlaying getOpenNote getMute
       with_mel_mode with_drone_mode with_t_mode
       with_open_note with_volume with_note_being_played with_mute_on
       with_is_playing
       mystring mylowstring mydrone mytromp mybuzz mel_mode drone_mode
       t_mode tpose_offset capo_offset myoffset play_screen_type
       name open_note midi_channel midi_volume trigger_volume
       note_being_played mute_on is_playing
       fst snd negb orb andb].

(** Run a cycler on a state whose fields are variables, splitting on
    every test it makes. *)
Ltac exec :=
  exec_step;
  repeat (first
            [ rewrite soundOff_eq
            | rewrite soundOn_eq
            | match goal with
              | |- context [if ?c then _ else _] =>
                  lazymatch c with
                  | context [if _ then _ else _] => fail
                  | _ => destruct c eqn:?
                  end
              end ];
          exec_step).

(** Run a cycler on a state whose modes and flags are known. *)
Ltac exec_known :=
  exec_step;
  repeat (first
            [ rewrite soundOff_eq
            | rewrite soundOn_eq
            | progress cbv [Z.eqb Pos.eqb] ];
          exec_step).

(** Run a cycler and its [soundOn] and [soundOff] calls on a state whose
    modes and flags are known. *)
Ltac exec_sound :=
  exec_step; cbv [soundOn soundOff Z.eqb Pos.eqb]; exec_step.

Ltac open_globals g :=
  destruct g as [[? ? ? ? ? ? ? ?] [? ? ? ? ? ? ? ?] [? ? ? ? ? ? ? ?]
                   [? ? ? ? ? ? ? ?] [? ? ? ? ? ? ? ?] ? ? ? ? ? ? ?].

Ltac mode_facts :=
  repeat match goal with
         | H : (_ =? _) = true |- _ => apply Z.eqb_eq in H
         | H : (_ =? _) = false |- _ => apply Z.eqb_neq in H
         | H : (_ <=? _) = true |- _ => apply Z.leb_le in H
         | H : (_ <=? _) = false |- _ => apply Z.leb_gt in H
         end.

Section CyclerFacts.

Variable cfg : build.
Variables d dm : Z.

(** Every cycler keeps the buzz voice's mute flag equal to the
    trompette's. *)
Lemma run_op_buzz_mirrors_tromp (o : mute_op) (g : globals) :
  mute_on (mybuzz g) = mute_on (mytromp g) ->
  let g' := state (run_op cfg d dm o g) in
  mute_on (mybuzz g') = mute_on (mytromp g').
Proof.
  intros H g'. subst g'. open_globals g. cbn in H. subst.
  destruct o; exec; reflexivity.
Qed.

End CyclerFacts.

Section CyclerSteps.

Variable cfg : build.
Variables d dm : Z.

Lemma run_ops_cons (o : mute_op) (os : list mute_op) (g : globals) :
  state (run_ops cfg d dm (o :: os) g)
  = state (run_ops cfg d dm os (state (run_op cfg d dm o g))).
Proof.
  cbn [run_ops]. unfold bind, state.
  destruct (run_op cfg d dm o g) as [[u g1] e1]. cbn [fst snd].
  destruct (run_ops cfg d dm os g1) as [[u2 g2] e2]. reflexivity.
Qed.

(** One call of [cycle_mel_mute], from each of the three modes. *)
Lemma cycle_mel_mute_step (g : globals) :
  let g' := state (cycle_mel_mute cfg d dm g) in
  (mel_mode g = 0 ->
   mel_mode g' = 1 /\
   mute_on (mystring g') = false /\ mute_on (mylowstring g') = true) /\
  (mel_mode g = 1 ->
   mel_mode g' = 2 /\
   mute_on (mystring g') = true /\ mute_on (mylowstring g') = false) /\
  (mel_mode g = 2 ->
   mel_mode g' = 0 /\
   mute_on (mystring g') = false /\ mute_on (mylowstring g') = false).
Proof.
  intros g'. subst g'. open_globals g.
  exec; mode_facts; repeat split; intros; try reflexivity; lia.
Qed.

(** One call of [cycle_drone_tromp_mute], from each of the four modes. *)
Lemma cycle_drone_tromp_mute_step (g : globals) :
  let g' := state (cycle_drone_tromp_mute cfg d dm g) in
  (drone_mode g = 0 ->
   drone_mode g' = 1 /\ mute_on (mydrone g') = true /\
   mute_on (mytromp g') = true /\ mute_on (mybuzz g') = true) /\
  (drone_mode g = 1 ->
   drone_mode g' = 2 /\ mute_on (mydrone g') = false /\
   mute_on (mytromp g') = true /\ mute_on (mybuzz g') = true) /\
  (drone_mode g = 2 ->
   drone_mode g' = 3 /\ mute_on (mydrone g') = true /\
   mute_on (mytromp g') = false /\ mute_on (mybuzz g') = false) /\
  (drone_mode g = 3 ->
   drone_mode g' = 0 /\ mute_on (mydrone g') = false /\
   mute_on (mytromp g') = false /\ mute_on (mybuzz g') = false).
Proof.
  intros g'. subst g'. open_globals g.
  exec; mode_facts; repeat split; intros; try reflexivity; lia.
Qed.

(** No cycler but [cycle_mel_mute] touches the melody mode or the melody
    voices' mute flags. *)
Lemma run_op_melody_frame (o : mute_op) (g : globals) :
  o <> op_cycle_mel_mute ->
  let g' := state (run_op cfg d dm o g) in
  mel_mode g' = mel_mode g /\
  mute_on (mystring g') = mute_on (mystring g) /\
  mute_on (mylowstring g') = mute_on (mylowstring g).
Proof.
  intros Ho g'. subst g'. open_globals g.
  destruct o; try congruence; exec; repeat split.
Qed.

Lemma run_op_mel_consistent (o : mute_op) (g : globals) :
  mel_consistent g -> mel_consistent (state (run_op cfg d dm o g)).
Proof.
  intros (Hm & Hh & Hl).
  destruct o.
  - pose proof (cycle_mel_mute_step g) as (H0 & H1 & H2). cbv zeta in *.
    cbn [run_op]. unfold mel_consistent.
    assert (mel_mode g = 0 \/ mel_mode g = 1 \/ mel_mode g = 2)
      as [E | [E | E]] by lia.
    + destruct (H0 E) as (-> & -> & ->). repeat split; lia.
    + destruct (H1 E) as (-> & -> & ->). repeat split; lia.
    + destruct (H2 E) as (-> & -> & ->). repeat split; lia.
  - destruct (run_op_melody_frame op_cycle_drone_tromp_mute g
                ltac:(discriminate)) as (E1 & E2 & E3).
    unfold mel_consistent. rewrite E1, E2, E3. auto.
  - destruct (run_op_melody_frame op_cycle_drone_mute g
                ltac:(discriminate)) as (E1 & E2 & E3).
    unfold mel_consistent. rewrite E1, E2, E3. auto.
  - destruct (run_op_melody_frame op_cycle_tromp_mute g
                ltac:(discriminate)) as (E1 & E2 & E3).
    unfold mel_consistent. rewrite E1, E2, E3. auto.
Qed.

Lemma mel_consistent_not_both_muted (g : globals) :
  mel_consistent g ->
  mute_on (mystring g) = false \/ mute_on (mylowstring g) = false.
Proof.
  intros (Hm & -> & ->). unfold high_muted_in, low_muted_in.
  destruct (Z.eqb_spec (mel_mode g) 2); [right|left; reflexivity].
  apply Z.eqb_neq. lia.
Qed.

End CyclerSteps.

(** ** The cycles *)

(** C4.  From melody mode 0 (both on) with both melody voices unmuted,
    [cycle_mel_mute] goes to mode 1 (high on, low muted), then to mode 2
    (high muted, low on), then back to mode 0 with both unmuted: the third
    call, and neither the first nor the second, restores the mode and both
    mute flags. *)
Theorem cycle_mel_mute_three_calls (cfg : build) (d dm : Z) (g : globals) :
  mel_mode g = 0 ->
  mute_on (mystring g) = false ->
  mute_on (mylowstring g) = false ->
  let g1 := state (cycle_mel_mute cfg d dm g) in
  let g2 := state (cycle_mel_mute cfg d dm g1) in
  let g3 := state (cycle_mel_mute cfg d dm g2) in
  (mel_mode g1 = 1 /\
   mute_on (mystring g1) = false /\ mute_on (mylowstring g1) = true) /\
  (mel_mode g2 = 2 /\
   mute_on (mystring g2) = true /\ mute_on (mylowstring g2) = false) /\
  (mel_mode g3 = mel_mode g /\
   mute_on (mystring g3) = mute_on (mystring g) /\
   mute_on (mylowstring g3) = mute_on (mylowstring g)) /\
  mel_mode g1 <> mel_mode g /\ mel_mode g2 <> mel_mode g.
Proof.
  intros Hm Hh Hl g1 g2 g3.
  destruct (cycle_mel_mute_step cfg d dm g) as (S1 & _ & _).
  specialize (S1 Hm). fold g1 in S1. destruct S1 as (M1 & A1 & B1).
  destruct (cycle_mel_mute_step cfg d dm g1) as (_ & S2 & _).
  specialize (S2 M1). fold g2 in S2. destruct S2 as (M2 & A2 & B2).
  destruct (cycle_mel_mute_step cfg d dm g2) as (_ & _ & S3).
  specialize (S3 M2). fold g3 in S3. destruct S3 as (M3 & A3 & B3).
  rewrite Hm, Hh, Hl, M1, M2.
  repeat split; try assumption; lia.
Qed.

Lemma cycle_mel_mute_three_calls_witness :
  mel_mode
    (state (cycle_mel_mute MIDI_OUT 0 0
       (state (cycle_mel_mute MIDI_OUT 0 0
          (state (cycle_mel_mute MIDI_OUT 0 0 demo_globals))))))
  = mel_mode demo_globals.
Proof.
  apply (cycle_mel_mute_three_calls MIDI_OUT 0 0 demo_globals);
    reflexivity.
Defined.

(** C5.  From drone mode 1 (both off) with drone, trompette and buzz
    muted, [cycle_drone_tromp_mute] goes to mode 2 (drone on, trompette
    off), then 3 (drone off, trompette on), then 0 (both on), then back to
    1: the fourth call, and none before it, restores the mode and the three
    mute flags. *)
Theorem cycle_drone_tromp_mute_four_calls
    (cfg : build) (d dm : Z) (g : globals) :
  drone_mode g = 1 ->
  mute_on (mydrone g) = true ->
  mute_on (mytromp g) = true ->
  mute_on (mybuzz g) = true ->
  let g1 := state (cycle_drone_tromp_mute cfg d dm g) in
  let g2 := state (cycle_drone_tromp_mute cfg d dm g1) in
  let g3 := state (cycle_drone_tromp_mute cfg d dm g2) in
  let g4 := state (cycle_drone_tromp_mute cfg d dm g3) in
  (drone_mode g1 = 2 /\ mute_on (mydrone g1) = false /\
   mute_on (mytromp g1) = true /\ mute_on (mybuzz g1) = true) /\
  (drone_mode g2 = 3 /\ mute_on (mydrone g2) = true /\
   mute_on (mytromp g2) = false /\ mute_on (mybuzz g2) = false) /\
  (drone_mode g3 = 0 /\ mute_on (mydrone g3) = false /\
   mute_on (mytromp g3) = false /\ mute_on (mybuzz g3) = false) /\
  (drone_mode g4 = drone_mode g /\
   mute_on (mydrone g4) = mute_on (mydrone g) /\
   mute_on (mytromp g4) = mute_on (mytromp g) /\
   mute_on (mybuzz g4) = mute_on (mybuzz g)) /\
  drone_mode g1 <> drone_mode g /\ drone_mode g2 <> drone_mode g /\
  drone_mode g3 <> drone_mode g.
Proof.
  intros Hm Hd Ht Hb g1 g2 g3 g4.
  destruct (cycle_drone_tromp_mute_step cfg d dm g) as (_ & S1 & _ & _).
  specialize (S1 Hm). fold g1 in S1. destruct S1 as (M1 & A1 & B1 & C1).
  destruct (cycle_drone_tromp_mute_step cfg d dm g1) as (_ & _ & S2 & _).
  specialize (S2 M1). fold g2 in S2. destruct S2 as (M2 & A2 & B2 & C2).
  destruct (cycle_drone_tromp_mute_step cfg d dm g2) as (_ & _ & _ & S3).
  specialize (S3 M2). fold g3 in S3. destruct S3 as (M3 & A3 & B3 & C3).
  destruct (cycle_drone_tromp_mute_step cfg d dm g3) as (S4 & _ & _ & _).
  specialize (S4 M3). fold g4 in S4. destruct S4 as (M4 & A4 & B4 & C4).
  rewrite Hm, Hd, Ht, Hb, M1, M2, M3.
  repeat split; try assumption; lia.
Qed.

Lemma cycle_drone_tromp_mute_four_calls_witness :
  drone_mode
    (state (cycle_drone_tromp_mute MIDI_OUT 0 0
       (state (cycle_drone_tromp_mute MIDI_OUT 0 0
          (state (cycle_drone_tromp_mute MIDI_OUT 0 0
             (state (cycle_drone_tromp_mute MIDI_OUT 0 0
                       demo_drones_off))))))))
  = drone_mode demo_drones_off.
Proof.
  apply (cycle_drone_tromp_mute_four_calls MIDI_OUT 0 0 demo_drones_off);
    reflexivity.
Defined.

(** ** Invariants of the cyclers *)

(** C6.  If the buzz voice's mute flag equals the trompette's, it still
    does after any one of the four cyclers, and so after any sequence of
    them. *)
Theorem buzz_mute_mirrors_tromp
    (cfg : build) (d dm : Z) (os : list mute_op) (g : globals) :
  mute_on (mybuzz g) = mute_on (mytromp g) ->
  (forall o : mute_op,
      let g' := state (run_op cfg d dm o g) in
      mute_on (mybuzz g') = mute_on (mytromp g')) /\
  (let g' := state (run_ops cfg d dm os g) in
   mute_on (mybuzz g') = mute_on (mytromp g')).
Proof.
  intros H. split.
  - intros o. now apply run_op_buzz_mirrors_tromp.
  - revert g H. induction os as [|o os IH]; intros g H.
    + exact H.
    + cbv zeta. rewrite run_ops_cons. apply IH.
      now apply run_op_buzz_mirrors_tromp.
Qed.

Lemma buzz_mute_mirrors_tromp_witness :
  let g' := state (run_ops MIDI_OUT 0 0
                     [op_cycle_tromp_mute; op_cycle_drone_tromp_mute;
                      op_cycle_drone_mute; op_cycle_mel_mute]
                     demo_globals) in
  mute_on (mybuzz g') = mute_on (mytromp g').
Proof.
  apply (buzz_mute_mirrors_tromp MIDI_OUT 0 0
           [op_cycle_tromp_mute; op_cycle_drone_tromp_mute;
            op_cycle_drone_mute; op_cycle_mel_mute] demo_globals).
  reflexivity.
Defined.

(** C7.  From a state whose melody mode is 0, 1 or 2 and whose melody mute
    flags agree with it, any sequence of the four cyclers leads to a state
    of the same kind, in which the high or the low melody voice is
    unmuted. *)
Theorem melody_never_both_muted
    (cfg : build) (d dm : Z) (os : list mute_op) (g : globals) :
  mel_consistent g ->
  let g' := state (run_ops cfg d dm os g) in
  mel_consistent g' /\
  (mute_on (mystring g') = false \/ mute_on (mylowstring g') = false).
Proof.
  intros H g'.
  assert (Hc : mel_consistent g').
  { subst g'. revert g H. induction os as [|o os IH]; intros g H.
    - exact H.
    - rewrite run_ops_cons. apply IH. now apply run_op_mel_consistent. }
  split; [exact Hc | now apply mel_consistent_not_both_muted].
Qed.

Lemma melody_never_both_muted_witness :
  let g' := state (run_ops MIDI_OUT 0 0
                     [op_cycle_mel_mute; op_cycle_drone_mute;
                      op_cycle_mel_mute; op_cycle_tromp_mute]
                     demo_globals) in
  mute_on (mystring g') = false \/ mute_on (mylowstring g') = false.
Proof.
  apply (melody_never_both_muted MIDI_OUT 0 0
           [op_cycle_mel_mute; op_cycle_drone_mute;
            op_cycle_mel_mute; op_cycle_tromp_mute] demo_globals).
  repeat split; cbn; lia.
Defined.

(** ** The drone toggle *)

(** C8.  With the drone mode in 0..3, [cycle_drone_mute] mutes the drone
    if the mode was 0 (both on) or 2 (drone on) and unmutes it otherwise,
    which flips the flag whenever the flag agreed with the mode; the new
    mode says the same of the trompette as the old one and agrees with the
    drone's new flag.  Every other voice is left exactly as it was, and the
    drone keeps its open note, volume and playing flag; the melody and
    trompette modes are not touched. *)
Theorem cycle_drone_mute_flips_drone_only
    (cfg : build) (d dm : Z) (g : globals) :
  0 <= drone_mode g <= 3 ->
  let g' := state (cycle_drone_mute cfg d dm g) in
  mute_on (mydrone g') = ((drone_mode g =? 0) || (drone_mode g =? 2)) /\
  (mute_on (mydrone g) = drone_muted_in (drone_mode g) ->
   mute_on (mydrone g') = negb (mute_on (mydrone g))) /\
  drone_muted_in (drone_mode g') = mute_on (mydrone g') /\
  tromp_muted_in (drone_mode g') = tromp_muted_in (drone_mode g) /\
  0 <= drone_mode g' <= 3 /\
  mute_on (mytromp g') = mute_on (mytromp g) /\
  mute_on (mybuzz g') = mute_on (mybuzz g) /\
  (forall p : string_ptr, p <> p_mydrone -> deref p g' = deref p g) /\
  (forall p : string_ptr,
      open_note (deref p g') = open_note (deref p g) /\
      midi_volume (deref p g') = midi_volume (deref p g) /\
      is_playing (deref p g') = is_playing (deref p g)) /\
  mel_mode g' = mel_mode g /\ t_mode g' = t_mode g.
Proof.
  intros Hm g'. subst g'.
  destruct g as [[? ? ? ? ? ? ? hplaying] lo [? ? ? ? ? ? dmute dplaying]
                   tr bz mm m tm tp cp off pst].
  cbn [drone_mode] in Hm.
  assert (m = 0 \/ m = 1 \/ m = 2 \/ m = 3) as [-> | [-> | [-> | ->]]]
      by lia;
    destruct dplaying, hplaying;
    unfold drone_muted_in, tromp_muted_in; exec_known;
    (split; [reflexivity|]);
    (split; [intros ->; reflexivity|]);
    (split; [reflexivity|]);
    (split; [reflexivity|]);
    (split; [lia|]);
    (split; [reflexivity|]);
    (split; [reflexivity|]);
    (split; [intros [] Hp; try congruence; reflexivity|]);
    (split; [intros []; repeat split|]);
    split; reflexivity.
Qed.

Lemma cycle_drone_mute_flips_drone_only_witness :
  let g' := state (cycle_drone_mute MIDI_OUT 0 0 demo_playing_key5) in
  mute_on (mydrone g') = true /\ drone_mode g' = 3 /\
  mute_on (mytromp g') = false /\ is_playing (mydrone g') = true.
Proof.
  pose proof (cycle_drone_mute_flips_drone_only MIDI_OUT 0 0
                demo_playing_key5 ltac:(cbn; lia))
    as (H1 & _ & _ & _ & _ & H2 & _ & _ & H3 & _).
  cbv zeta in *.
  split; [exact H1|]. split; [reflexivity|].
  split; [exact H2|]. exact (proj2 (proj2 (H3 p_mydrone))).
Defined.

(** ** Re-triggering a playing voice *)

Lemma soundOff_events_nonempty (cfg : build) (s : GurdyString)
    (l : list event) :
  sound_events (soundOff_events cfg s ++ l) <> [].
Proof.
  unfold soundOff_events. rewrite (proj2 (soundOff_run cfg s)).
  cbn. discriminate.
Qed.

Section Retrigger.

Variable cfg : build.
Variables d dm : Z.

(** A cycler sends something to the sound transport exactly when the voice
    it tests is playing. *)
Lemma run_op_sounds_iff_playing (o : mute_op) (g : globals) (p : string_ptr) :
  representative o g = Some p ->
  sound_events (trace (run_op cfg d dm o g)) <> []
  <-> is_playing (deref p g) = true.
Proof.
  open_globals g. unfold representative.
  destruct o; exec; mode_facts; try discriminate; try lia;
    intros [= <-]; exec_step;
    rewrite <- ?app_assoc; cbn [app];
    (split; [intros H; try reflexivity; exfalso; apply H; reflexivity
            | intros H; try discriminate H; apply soundOff_events_nonempty]).
Qed.

(** When that voice is not playing, nothing reaches the sound transport
    and, the modes and mute flags apart, the state is as it was. *)
Lemma run_op_idle (o : mute_op) (g : globals) (p : string_ptr) :
  representative o g = Some p ->
  is_playing (deref p g) = false ->
  let r := run_op cfg d dm o g in
  sound_events (trace r) = [] /\
  (forall q : string_ptr,
      with_mute_on false (deref q (state r))
      = with_mute_on false (deref q g)) /\
  tpose_offset (state r) = tpose_offset g /\
  capo_offset (state r) = capo_offset g /\
  myoffset (state r) = myoffset g /\
  play_screen_type (state r) = play_screen_type g.
Proof.
  intros Hrep Hpl r.
  assert (E : r = run_op cfg d dm o g) by reflexivity.
  clearbody r. revert E Hrep Hpl.
  open_globals g. unfold representative.
  destruct o; exec; mode_facts; try discriminate; try lia;
    intros -> [= <-]; exec_step; intros H; try discriminate H;
    (split; [reflexivity|]); (split; [intros []; reflexivity|]);
    repeat split.
Qed.

(** When it is playing, the voice is stopped at the note it tracked and
    started again at its open note plus the default offset of [soundOn()],
    whatever note it tracked: here for the high melody voice in melody
    mode 2. *)
Lemma cycle_mel_mute_retrigger_notes (g : globals) :
  mel_mode g = 2 ->
  is_playing (mystring g) = true ->
  let r := cycle_mel_mute cfg d dm g in
  let hs := mystring g in
  note_offs_on usbMIDI (trace r)
  = [sendNoteOff (note_being_played hs) (midi_volume hs) (midi_channel hs)] /\
  note_ons_on usbMIDI (trace r)
  = [sendNoteOn (Int.add (open_note hs) d) (midi_volume hs)
       (midi_channel hs)] /\
  note_being_played (mystring (state r)) = Int.add (open_note hs) d.
Proof.
  intros Hm Hp r hs. subst r hs.
  destruct g as [[? ? ? ? ? ? ? hplaying] lo dr tr bz mm m tm tp cp off pst].
  cbn in Hm, Hp. subst mm hplaying.
  destruct cfg, (0 <? dm) eqn:E, (-60 <? trigger_volume0) eqn:E';
    repeat (exec_sound; rewrite ?E, ?E');
    repeat split.
Qed.

End Retrigger.

(** C3, at a state the instrument reaches in play.  The fifth key is down
    in melody mode 2, so the high melody voice (muted, playing) tracks note
    72 = 67 + 5 and the low one sounds 60 = 55 + 5.  [cycle_mel_mute], with
    [soundOn()] defaulting to offset 0, stops the high voice at note 72 and
    starts it at its open note 67, while the low voice stays on 60 and the
    play screen is drawn for note 72: the re-trigger does not keep the
    note. *)
Theorem cycle_mel_mute_retrigger_changes_note :
  let g := demo_playing_key5 in
  let r := cycle_mel_mute config_h_build 0 0 g in
  (representative op_cycle_mel_mute g = Some p_mystring /\
   is_playing (mystring g) = true /\
   note_being_played (mystring g) = 72 /\
   note_being_played (mylowstring g) = 60) /\
  trace r
  = [Midi usbMIDI (sendNoteOff 72 70 1); Midi MIDI (sendNoteOff 72 70 1);
     Midi usbMIDI (sendNoteOn 67 70 1); Midi MIDI (sendNoteOn 67 70 1);
     Display (draw_play_screen 72 0 false)] /\
  note_being_played (mystring (state r)) = 67 /\
  note_being_played (mylowstring (state r)) = 60 /\
  mute_on (mystring (state r)) = false /\
  mute_on (mylowstring (state r)) = false.
Proof.
  vm_compute. repeat split.
Qed.

(** * Further properties of the code *)

(** ** [int] arithmetic, continued *)

Lemma Int_sub_exact (a b : Z) : Int.in_range (a - b) -> Int.sub a b = a - b.
Proof. apply Int_wrap_exact. Qed.

Lemma Int_mul_exact (a b : Z) : Int.in_range (a * b) -> Int.mul a b = a * b.
Proof. apply Int_wrap_exact. Qed.

(** ** The events of [soundOn] and [soundOff], written out *)

Lemma soundOn_events_unmuted (cfg : build) (o m : Z) (s : GurdyString) :
  mute_on s = false ->
  let n := Int.add (open_note s) o in
  let v := midi_volume s in
  let ch := midi_channel s in
  let trk := track_of (with_note_being_played n s) in
  soundOn_events cfg o m s
  = Midi usbMIDI (sendNoteOn n v ch)
    :: match cfg with
       | MIDI_OUT => [Midi MIDI (sendNoteOn n v ch)]
       | USE_TRIGGER =>
           [Trigger (trackGain trk (trigger_volume s));
            Trigger (trackPlayPoly trk None true);
            Trigger (trackLoop trk true)]
       | USE_TSUNAMI =>
           [Trigger (trackGain trk (trigger_volume s));
            Trigger (trackPlayPoly trk (Some TSUNAMI_OUT) true);
            Trigger (trackLoop trk true)]
       end
    ++ (if 0 <? m
        then Midi usbMIDI (sendControlChange 1 m ch)
             :: match cfg with
                | MIDI_OUT => [Midi MIDI (sendControlChange 1 m ch)]
                | USE_TRIGGER | USE_TSUNAMI => []
                end
        else []).
Proof.
  intros Hmute. cbv zeta. unfold soundOn_events.
  destruct s as [nm on c vol tv nb mu pl]. cbn in Hmute. subst mu.
  destruct cfg, (0 <? m) eqn:E;
    cbv [soundOn trace bind gets modify emit when ret negb fst snd app
         with_is_playing with_note_being_played open_note mute_on
         note_being_played midi_volume midi_channel trigger_volume name
         is_playing];
    rewrite ?E; reflexivity.
Qed.

Lemma soundOn_events_muted (cfg : build) (o m : Z) (s : GurdyString) :
  mute_on s = true -> soundOn_events cfg o m s = [].
Proof.
  intros Hmute. unfold soundOn_events.
  destruct s as [nm on c vol tv nb mu pl]. cbn in Hmute. subst mu.
  destruct cfg; reflexivity.
Qed.

Lemma soundOff_events_eq (cfg : build) (s : GurdyString) :
  soundOff_events cfg s
  = Midi usbMIDI
      (sendNoteOff (note_being_played s) (midi_volume s) (midi_channel s))
    :: match cfg with
       | MIDI_OUT =>
           [Midi MIDI
              (sendNoteOff (note_being_played s) (midi_volume s)
                 (midi_channel s))]
       | USE_TRIGGER | USE_TSUNAMI =>
           [Trigger
              (trackFade (track_of s)
                 (if -60 <? trigger_volume s
                  then Int.sub (trigger_volume s) 10 else -70)
                 200 true)]
       end.
Proof. exact (proj2 (soundOff_run cfg s)). Qed.

(** ** [soundOn] on an unmuted voice *)

(** An unmuted [soundOn(offset, modulation)] sends, in this order: the
    note-on for [open_note + offset] at the voice's volume and channel on
    [usbMIDI]; the same on [MIDI] in the MIDI-OUT build, or gain, play and
    loop of the note's track on the WAV Trigger or Tsunami; and a CC1 with
    the modulation, on the MIDI outputs only, exactly when the modulation
    is positive.  Each MIDI output of the build gets one note-on, and no
    note-off is sent. *)
Theorem soundOn_unmuted_events
    (cfg : build) (s : GurdyString) (my_offset my_modulation : Z) :
  mute_on s = false ->
  let n := Int.add (open_note s) my_offset in
  let v := midi_volume s in
  let ch := midi_channel s in
  let trk := track_of (with_note_being_played n s) in
  let r := soundOn cfg my_offset my_modulation s in
  trace r
  = Midi usbMIDI (sendNoteOn n v ch)
    :: match cfg with
       | MIDI_OUT => [Midi MIDI (sendNoteOn n v ch)]
       | USE_TRIGGER =>
           [Trigger (trackGain trk (trigger_volume s));
            Trigger (trackPlayPoly trk None true);
            Trigger (trackLoop trk true)]
       | USE_TSUNAMI =>
           [Trigger (trackGain trk (trigger_volume s));
            Trigger (trackPlayPoly trk (Some TSUNAMI_OUT) true);
            Trigger (trackLoop trk true)]
       end
    ++ (if 0 <? my_modulation
        then Midi usbMIDI (sendControlChange 1 my_modulation ch)
             :: match cfg with
                | MIDI_OUT => [Midi MIDI (sendControlChange 1 my_modulation ch)]
                | USE_TRIGGER | USE_TSUNAMI => []
                end
        else []) /\
  (forall p, has_port cfg p = true ->
             note_ons_on p (trace r) = [sendNoteOn n v ch]) /\
  (forall p, has_port cfg p = false -> note_ons_on p (trace r) = []) /\
  note_offs (trace r) = [].
Proof.
  intros Hmute n v ch trk r. subst n v ch trk r.
  change (trace (soundOn cfg my_offset my_modulation s))
    with (soundOn_events cfg my_offset my_modulation s).
  rewrite (soundOn_events_unmuted cfg my_offset my_modulation s Hmute).
  split; [reflexivity|]. split; [|split].
  - intros p Hp.
    destruct cfg, p, (0 <? my_modulation); try discriminate Hp; reflexivity.
  - intros p Hp.
    destruct cfg, p, (0 <? my_modulation); try discriminate Hp; reflexivity.
  - destruct cfg, (0 <? my_modulation); reflexivity.
Qed.

Lemma soundOn_unmuted_events_witness :
  trace (soundOn MIDI_OUT 5 0 (demo_string 1 67 "Hi Melody"))
  = [Midi usbMIDI (sendNoteOn 72 70 1); Midi MIDI (sendNoteOn 72 70 1)].
Proof.
  exact (proj1 (soundOn_unmuted_events MIDI_OUT
                  (demo_string 1 67 "Hi Melody") 5 0 eq_refl)).
Defined.

(** ** [soundKill] *)

(** [soundKill()] sends control change 123 with value 0 on the voice's
    channel ([usbMIDI], and [MIDI] in the MIDI-OUT build) or stops all
    tracks (WAV Trigger, Tsunami); it sends no note-off, so what it sends
    does not depend on the note tracked, on the mute flag or on the playing
    flag.  It clears the playing flag and changes nothing else. *)
Theorem soundKill_events (cfg : build) (s : GurdyString) :
  let r := soundKill cfg s in
  trace r
  = Midi usbMIDI (sendControlChange 123 0 (midi_channel s))
    :: match cfg with
       | MIDI_OUT => [Midi MIDI (sendControlChange 123 0 (midi_channel s))]
       | USE_TRIGGER | USE_TSUNAMI => [Trigger stopAllTracks]
       end /\
  note_offs (trace r) = [] /\
  state r = with_is_playing false s /\
  (forall (n o : Z) (mu pl : bool),
      trace (soundKill cfg
               (with_note_being_played n
                  (with_open_note o (with_mute_on mu (with_is_playing pl s)))))
      = trace r).
Proof.
  destruct s as [nm on c vol tv nb mu pl].
  destruct cfg; repeat split.
Qed.

(** ** [soundOn] twice in a row *)



(** ** [soundOff] is not guarded *)

(** [soundOff()] looks neither at the playing flag nor at the mute flag nor
    at the open note: it sends the note-off of the tracked note whatever
    they are, so a second [soundOff] sends the same events again, and on a
    voice fresh from the constructor it sends the note-off of the open
    note. *)
Theorem soundOff_unguarded (cfg : build) (s : GurdyString) :
  (forall (o : Z) (mu pl : bool),
      trace (soundOff cfg
               (with_open_note o (with_mute_on mu (with_is_playing pl s))))
      = trace (soundOff cfg s)) /\
  trace (soundOff cfg (state (soundOff cfg s))) = trace (soundOff cfg s) /\
  state (soundOff cfg (state (soundOff cfg s))) = state (soundOff cfg s) /\
  note_offs_on usbMIDI (trace (soundOff cfg s))
  = [sendNoteOff (note_being_played s) (midi_volume s) (midi_channel s)] /\
  (forall (mute0 playing0 : bool) (ch note : Z) (nm : string) (vol : Z),
      note_offs_on usbMIDI
        (trace (soundOff cfg (GurdyString_new mute0 playing0 ch note nm vol)))
      = [sendNoteOff note vol ch]).
Proof.
  split; [|split; [|split; [|split]]].
  - intros o mu pl. rewrite !(proj2 (soundOff_run cfg _)).
    destruct s; reflexivity.
  - rewrite (proj1 (soundOff_run cfg s)).
    rewrite !(proj2 (soundOff_run cfg _)). destruct s; reflexivity.
  - rewrite !(proj1 (soundOff_run cfg _)). destruct s; reflexivity.
  - rewrite (proj2 (soundOff_run cfg s)). destruct cfg; reflexivity.
  - intros. rewrite (proj2 (soundOff_run cfg _)). destruct cfg; reflexivity.
Qed.

(** ** [setMute] *)

Lemma soundOn_muted_silent_trace
    (cfg : build) (s : GurdyString) (o m : Z) :
  trace (soundOn cfg o m (state (setMute true s))) = [].
Proof.
  destruct s as [nm on c vol tv nb mu pl]. destruct cfg; reflexivity.
Qed.

(** [setMute] sends nothing and changes the mute flag only, also on a voice
    that is playing: a sounding note keeps sounding and the tracked note is
    kept, so the next [soundOff] sends the same events as it would have.
    The flag acts at the next [soundOn]: silent after [setMute(true)], a
    note-on on [usbMIDI] after [setMute(false)]. *)
Theorem setMute_acts_at_next_soundOn
    (cfg : build) (s : GurdyString) (b : bool) (o m : Z) :
  let r := setMute b s in
  trace r = [] /\
  state r = with_mute_on b s /\
  result (getMute (state r)) = b /\
  result (isPlaying (state r)) = is_playing s /\
  trace (soundOff cfg (state r)) = trace (soundOff cfg s) /\
  trace (soundOn cfg o m (state (setMute true s))) = [] /\
  note_ons_on usbMIDI (trace (soundOn cfg o m (state (setMute false s))))
  = [sendNoteOn (Int.add (open_note s) o) (midi_volume s) (midi_channel s)].
Proof.
  cbv zeta.
  split; [reflexivity|]. split; [reflexivity|]. split; [reflexivity|].
  split; [destruct s; reflexivity|].
  split; [rewrite !(proj2 (soundOff_run cfg _)); destruct s; reflexivity|].
  split.
  - apply soundOn_muted_silent_trace.
  - change (trace (soundOn cfg o m (state (setMute false s))))
      with (soundOn_events cfg o m (with_mute_on false s)).
    rewrite soundOn_events_unmuted by (destruct s; reflexivity).
    destruct s as [nm on c vol tv nb mu pl].
    destruct cfg, (0 <? m); reflexivity.
Qed.

(** ** The controller pass-throughs *)

Lemma midi_passthrough_run (cfg : build) (m : midi_msg) (s : GurdyString) :
  midi_passthrough cfg m s
  = (tt, s,
     Midi usbMIDI m
     :: match cfg with
        | MIDI_OUT => [Midi MIDI m]
        | USE_TRIGGER | USE_TSUNAMI => []
        end).
Proof. destruct cfg; reflexivity. Qed.

(** [setExpression], [setPitchBend], [setVibrato] and [setProgram] leave
    the voice as it is and send one message (CC11, pitch bend, CC1, program
    change; the program as a [uint8_t]) on the voice's channel, on [usbMIDI]
    and, in the MIDI-OUT build, on [MIDI].  Mute and playing flags play no
    part, and nothing goes to the WAV Trigger or Tsunami. *)
Theorem passthroughs_keep_state (cfg : build) (s : GurdyString) (x : Z) :
  let ports (m : midi_msg) :=
    Midi usbMIDI m
    :: match cfg with
       | MIDI_OUT => [Midi MIDI m]
       | USE_TRIGGER | USE_TSUNAMI => []
       end in
  let ch := midi_channel s in
  (state (setExpression cfg x s) = s /\
   trace (setExpression cfg x s) = ports (sendControlChange 11 x ch)) /\
  (state (setPitchBend cfg x s) = s /\
   trace (setPitchBend cfg x s) = ports (sendPitchBend x ch)) /\
  (state (setVibrato cfg x s) = s /\
   trace (setVibrato cfg x s) = ports (sendControlChange 1 x ch)) /\
  (state (setProgram cfg x s) = s /\
   trace (setProgram cfg x s) = ports (sendProgramChange (x mod 256) ch) /\
   0 <= x mod 256 <= 255) /\
  (forall f, In f [setExpression cfg x; setPitchBend cfg x;
                   setVibrato cfg x; setProgram cfg x] ->
             trigger_events (trace (f s)) = [] /\
             forall mu pl,
               trace (f (with_mute_on mu (with_is_playing pl s)))
               = trace (f s)).
Proof.
  cbv zeta.
  unfold setExpression, setPitchBend, setVibrato, setProgram, bind, gets.
  rewrite !midi_passthrough_run. cbn [state trace fst snd app].
  repeat split; try reflexivity;
    try (pose proof (Z.mod_pos_bound x 256 ltac:(lia)); lia).
  all: cbn in H;
    repeat (destruct H as [<- | H];
            [ rewrite ?midi_passthrough_run; destruct s, cfg; reflexivity |]);
    contradiction.
Qed.

Lemma passthroughs_keep_state_witness :
  trace (setExpression USE_TRIGGER 100
           (with_mute_on true (demo_string 1 67 "Hi Melody")))
  = [Midi usbMIDI (sendControlChange 11 100 1)].
Proof.
  pose proof (passthroughs_keep_state USE_TRIGGER
                (with_mute_on true (demo_string 1 67 "Hi Melody")) 100) as H.
  cbv zeta in H. exact (proj2 (proj1 H)).
Defined.

(** ** The WAV Trigger and Tsunami *)

(** On the WAV Trigger and the Tsunami, [soundOff()] fades the track of
    the tracked note over 200 ms and stops it.  With a gain set from a
    volume in 0..127 the fade ends 10 below the playing gain, but never
    below -70: the target gain lies in -70..-1. *)
Theorem soundOff_fade_gain (cfg : build) (s : GurdyString) (vol : Z) :
  cfg <> MIDI_OUT ->
  0 <= vol <= 127 ->
  let s' := state (setVolume vol s) in
  let g := trigger_volume s' in
  exists target : Z,
    trace (soundOff cfg s')
    = [Midi usbMIDI
         (sendNoteOff (note_being_played s) vol (midi_channel s));
       Trigger (trackFade (track_of s) target 200 true)] /\
    (-60 < g -> target = g - 10) /\
    (g <= -60 -> target = -70) /\
    -70 <= target <= -1.
Proof.
  intros Hcfg Hvol s' g.
  pose proof (trigger_gain_bounds vol Hvol) as Hg.
  assert (Eg : g = trigger_gain vol) by (destruct s; reflexivity).
  rewrite <- Eg in Hg.
  exists (if -60 <? g then Int.sub g 10 else -70).
  split.
  - rewrite (proj2 (soundOff_run cfg s')).
    subst g s'. destruct s, cfg; try congruence; reflexivity.
  - destruct (Z.ltb_spec (-60) g) as [H | H].
    + rewrite Int_sub_exact
        by (unfold Int.in_range, Int.min, Int.max; lia).
      repeat split; try lia.
    + repeat split; lia.
Qed.

Lemma soundOff_fade_gain_witness :
  exists target : Z,
    trace (soundOff USE_TRIGGER
             (state (setVolume 112 (demo_string 1 67 "Hi Melody"))))
    = [Midi usbMIDI (sendNoteOff 67 112 1);
       Trigger (trackFade 67 target 200 true)] /\
    -70 <= target <= -1.
Proof.
  destruct (soundOff_fade_gain USE_TRIGGER (demo_string 1 67 "Hi Melody") 112
              ltac:(discriminate) ltac:(lia))
    as (t & H1 & _ & _ & H2).
  exists t. split; [exact H1 | exact H2].
Defined.

Lemma track_of_exact (s : GurdyString) :
  midi_note (note_being_played s) ->
  midi_chan (midi_channel s) ->
  track_of s = note_being_played s + 128 * (midi_channel s - 1).
Proof.
  unfold midi_note, midi_chan, track_of. intros Hn Hc.
  rewrite (Int_sub_exact (midi_channel s) 1)
    by (unfold Int.in_range, Int.min, Int.max; lia).
  rewrite Int_mul_exact by (unfold Int.in_range, Int.min, Int.max; lia).
  apply Int_add_exact. unfold Int.in_range, Int.min, Int.max. lia.
Qed.

(** For MIDI notes 0..127 on channels 1..16 the track number
    [note + 128 * (channel - 1)] lies in 0..2047 and tells the note and the
    channel: two voices address the same track only when they play the
    same note on the same channel. *)
Theorem track_of_injective (s1 s2 : GurdyString) :
  midi_note (note_being_played s1) -> midi_chan (midi_channel s1) ->
  midi_note (note_being_played s2) -> midi_chan (midi_channel s2) ->
  0 <= track_of s1 <= 2047 /\
  (track_of s1 = track_of s2 ->
   note_being_played s1 = note_being_played s2 /\
   midi_channel s1 = midi_channel s2).
Proof.
  intros Hn1 Hc1 Hn2 Hc2.
  rewrite (track_of_exact s1 Hn1 Hc1), (track_of_exact s2 Hn2 Hc2).
  unfold midi_note, midi_chan in *. split; [lia|]. intros H. lia.
Qed.

Lemma track_of_injective_witness :
  0 <= track_of (demo_string 2 55 "Low Melody") <= 2047.
Proof.
  apply (track_of_injective (demo_string 2 55 "Low Melody")
           (demo_string 1 67 "Hi Melody"));
    unfold midi_note, midi_chan; cbn; lia.
Defined.

(** The track that [soundOff] fades is the track that the [soundOn]
    before it set the gain of, played and looped, whatever [setOpenNote]
    calls came between. *)
Theorem soundOff_fades_track_of_soundOn
    (cfg : build) (s : GurdyString) (o m : Z) (retunings : list Z) :
  cfg <> MIDI_OUT ->
  mute_on s = false ->
  let r1 := soundOn cfg o m s in
  let r2 := setOpenNotes retunings (state r1) in
  let r3 := soundOff cfg (state r2) in
  exists (trk target : Z) (out : option Z),
    trigger_events (trace r1)
    = [trackGain trk (trigger_volume s); trackPlayPoly trk out true;
       trackLoop trk true] /\
    trigger_events (trace r3) = [trackFade trk target 200 true].
Proof.
  intros Hcfg Hmute r1 r2 r3.
  pose proof (setOpenNotes_state retunings (state r1))
    as (Hnb & _ & Hch & Htv & _ & _ & _).
  fold r2 in Hnb, Hch, Htv.
  exists (track_of (state r1)).
  exists (if -60 <? trigger_volume (state r2)
          then Int.sub (trigger_volume (state r2)) 10 else -70).
  exists (match cfg with USE_TSUNAMI => Some TSUNAMI_OUT | _ => None end).
  split.
  - subst r1.
    change (trace (soundOn cfg o m s)) with (soundOn_events cfg o m s).
    rewrite (soundOn_events_unmuted cfg o m s Hmute).
    rewrite soundOn_state.
    destruct s, cfg, (0 <? m); try congruence; reflexivity.
  - subst r3. rewrite (proj2 (soundOff_run cfg (state r2))).
    assert (Et : track_of (state r2) = track_of (state r1))
      by (unfold track_of; rewrite Hnb, Hch; reflexivity).
    rewrite Et. destruct cfg; try congruence; reflexivity.
Qed.

Lemma soundOff_fades_track_of_soundOn_witness :
  exists (trk target : Z) (out : option Z),
    trigger_events
      (trace (soundOn USE_TSUNAMI 5 16 (demo_string 2 55 "Low Melody")))
    = [trackGain trk (-26); trackPlayPoly trk out true; trackLoop trk true] /\
    trigger_events
      (trace (soundOff USE_TSUNAMI
                (state (setOpenNotes [57]
                   (state (soundOn USE_TSUNAMI 5 16
                             (demo_string 2 55 "Low Melody")))))))
    = [trackFade trk target 200 true].
Proof.
  exact (soundOff_fades_track_of_soundOn USE_TSUNAMI
           (demo_string 2 55 "Low Melody") 5 16 [57]
           ltac:(discriminate) eq_refl).
Defined.

(** ** The trigger gain, continued *)

(** A higher volume never gives a lower gain, for any [int] volume (none
    is rejected or clamped); the gain is 0, the line-out level, at volume
    112, and at 111 and 113 only besides. *)
Theorem trigger_gain_monotone (v w : Z) :
  v <= w ->
  trigger_gain v <= trigger_gain w /\
  (trigger_gain v = 0 <-> 111 <= v <= 113) /\
  (127 < v -> 9 <= trigger_gain v) /\
  (v < 0 -> trigger_gain v <= -70).
Proof.
  intros H. rewrite !trigger_gain_quot.
  repeat split; try intros; Z.to_euclidean_division_equations; lia.
Qed.

Lemma trigger_gain_monotone_witness :
  trigger_gain 70 <= trigger_gain 112 /\ trigger_gain 112 = 0.
Proof.
  destruct (trigger_gain_monotone 112 112 ltac:(lia)) as (_ & H0 & _).
  split.
  - exact (proj1 (trigger_gain_monotone 70 112 ltac:(lia))).
  - apply H0. lia.
Defined.

(** ** The trompette toggle *)

(** [cycle_tromp_mute] goes by [t_mode], not by the trompette's flag: with
    [t_mode] 0 it mutes trompette and buzz and sets [t_mode] to 1, with
    [t_mode] 1 it unmutes both and sets it to 0.  So it flips the
    trompette's flag when the flag agreed with [t_mode], and leaves it as
    it is when another cycler had changed it since.  It never touches
    [drone_mode] or [mel_mode], nor the melody voices or the drone, and a
    second call restores [t_mode]. *)
Theorem cycle_tromp_mute_goes_by_t_mode
    (cfg : build) (d dm : Z) (g : globals) :
  0 <= t_mode g <= 1 ->
  let g1 := state (cycle_tromp_mute cfg d dm g) in
  let g2 := state (cycle_tromp_mute cfg d dm g1) in
  (t_mode g1 = 1 - t_mode g /\
   mute_on (mytromp g1) = (t_mode g =? 0) /\
   mute_on (mybuzz g1) = (t_mode g =? 0)) /\
  (mute_on (mytromp g) = (t_mode g =? 1) ->
   mute_on (mytromp g1) = negb (mute_on (mytromp g))) /\
  (mute_on (mytromp g) = (t_mode g =? 0) ->
   mute_on (mytromp g1) = mute_on (mytromp g)) /\
  (drone_mode g1 = drone_mode g /\ mel_mode g1 = mel_mode g /\
   mystring g1 = mystring g /\ mylowstring g1 = mylowstring g /\
   mydrone g1 = mydrone g) /\
  (t_mode g2 = t_mode g /\
   mute_on (mytromp g2) = (t_mode g =? 1) /\
   mute_on (mybuzz g2) = (t_mode g =? 1)).
Proof.
  intros Hm g1 g2. subst g2 g1.
  destruct g as [[? ? ? ? ? ? ? hplaying] lo dr [? ? ? ? ? ? tmute tplaying]
                   [? ? ? ? ? ? ? ?] mm m tm tp cp off pst].
  cbn [t_mode] in Hm.
  assert (tm = 0 \/ tm = 1) as [-> | ->] by lia;
    destruct tplaying, hplaying; exec_known;
    (split; [repeat split|]);
    (split; [intros ->; reflexivity|]);
    (split; [intros ->; reflexivity|]);
    split; repeat split.
Qed.

Lemma cycle_tromp_mute_goes_by_t_mode_witness :
  let g := state (cycle_drone_tromp_mute MIDI_OUT 0 0 demo_globals) in
  let g1 := state (cycle_tromp_mute MIDI_OUT 0 0 g) in
  mute_on (mytromp g) = true /\ mute_on (mytromp g1) = true /\
  t_mode g1 = 1.
Proof.
  pose proof (cycle_tromp_mute_goes_by_t_mode MIDI_OUT 0 0
                (state (cycle_drone_tromp_mute MIDI_OUT 0 0 demo_globals))
                ltac:(cbn; lia))
    as ((H1 & H2 & _) & _).
  cbv zeta. split; [reflexivity|]. split; [exact H2 | exact H1].
Defined.

(** ** The drone toggle, twice *)

(** Two calls of [cycle_drone_mute] bring [drone_mode] back and leave the
    drone muted as that mode says, whatever its flag was before; the
    trompette, the buzz and the melody voices are as they were. *)
Theorem cycle_drone_mute_twice (cfg : build) (d dm : Z) (g : globals) :
  0 <= drone_mode g <= 3 ->
  let g2 := state (cycle_drone_mute cfg d dm
                     (state (cycle_drone_mute cfg d dm g))) in
  drone_mode g2 = drone_mode g /\
  mute_on (mydrone g2) = drone_muted_in (drone_mode g) /\
  is_playing (mydrone g2) = is_playing (mydrone g) /\
  (forall p : string_ptr, p <> p_mydrone -> deref p g2 = deref p g).
Proof.
  intros Hm g2. subst g2.
  destruct g as [[? ? ? ? ? ? ? hplaying] lo [? ? ? ? ? ? dmute dplaying]
                   tr bz mm m tm tp cp off pst].
  cbn [drone_mode] in Hm. unfold drone_muted_in.
  assert (m = 0 \/ m = 1 \/ m = 2 \/ m = 3) as [-> | [-> | [-> | ->]]]
      by lia;
    destruct dplaying, hplaying; exec_known;
    (split; [reflexivity|]); (split; [reflexivity|]);
    (split; [reflexivity|]);
    intros [] Hp; try congruence; reflexivity.
Qed.

Lemma cycle_drone_mute_twice_witness :
  drone_mode
    (state (cycle_drone_mute MIDI_OUT 0 0
              (state (cycle_drone_mute MIDI_OUT 0 0 demo_playing_key5))))
  = drone_mode demo_playing_key5.
Proof.
  apply (cycle_drone_mute_twice MIDI_OUT 0 0 demo_playing_key5).
  cbn; lia.
Defined.

(** ** A mode outside its values *)

(** The cyclers have no branch for a mode outside the values they assign
    ([mel_mode] 0..2, [drone_mode] 0..3, [t_mode] 0..1).  With such a
    mode a call changes nothing, the mode included, and only redraws the
    display: no number of calls gets the mode back into its values. *)
Theorem run_op_unknown_mode
    (cfg : build) (d dm : Z) (o : mute_op) (g : globals) (n : nat) :
  representative o g = None ->
  state (run_op cfg d dm o g) = g /\
  (exists c : display_cmd, trace (run_op cfg d dm o g) = [Display c]) /\
  state (times n (run_op cfg d dm o) g) = g.
Proof.
  intros H.
  assert (H1 : state (run_op cfg d dm o g) = g /\
               exists c : display_cmd,
                 trace (run_op cfg d dm o g) = [Display c]).
  { revert H. open_globals g. unfold representative.
    destruct o; exec; mode_facts; try discriminate; try lia;
      intros _; (split; [reflexivity | eexists; reflexivity]). }
  destruct H1 as [Hs Ht]. split; [exact Hs|]. split; [exact Ht|].
  induction n as [|n IH]; [reflexivity|].
  cbn [times]. unfold bind, state in *.
  destruct (run_op cfg d dm o g) as [[u g1] e1]. cbn [fst snd] in *.
  subst g1.
  destruct (times n (run_op cfg d dm o) g) as [[u2 g2] e2]. exact IH.
Qed.

Lemma run_op_unknown_mode_witness :
  state (cycle_mel_mute MIDI_OUT 0 0 (with_mel_mode 3 demo_globals))
  = with_mel_mode 3 demo_globals.
Proof.
  exact (proj1 (run_op_unknown_mode MIDI_OUT 0 0 op_cycle_mel_mute
                  (with_mel_mode 3 demo_globals) 1 eq_refl)).
Defined.

(** ** The display refresh *)

Lemma sound_events_app (a b : list event) :
  sound_events (a ++ b) = sound_events a ++ sound_events b.
Proof. apply filter_app. Qed.

Lemma sound_events_soundOff (cfg : build) (s : GurdyString) :
  sound_events (soundOff_events cfg s) = soundOff_events cfg s.
Proof. rewrite soundOff_events_eq. destruct cfg; reflexivity. Qed.

Lemma sound_events_soundOn (cfg : build) (o m : Z) (s : GurdyString) :
  sound_events (soundOn_events cfg o m s) = soundOn_events cfg o m s.
Proof.
  destruct (mute_on s) eqn:E.
  - rewrite soundOn_events_muted by exact E. reflexivity.
  - rewrite soundOn_events_unmuted by exact E.
    destruct cfg, (0 <? m); reflexivity.
Qed.

Lemma sound_only_no_display (A : list event) :
  sound_events A = A -> display_events A = [].
Proof.
  induction A as [|e A IH]; [reflexivity|].
  cbn [sound_events filter]. intros HA.
  destruct e; cbn [display_events flat_map app];
    try (injection HA as HA; exact (IH HA)).
  exfalso.
  assert (L : (List.length (sound_events A) <= List.length A)%nat)
    by apply filter_length_le.
  change (sound_events A = Display d :: A) in HA.
  rewrite HA in L. cbn [List.length] in L. lia.
Qed.

Lemma sound_then_display (A : list event) (c : display_cmd) :
  sound_events A = A ->
  let t := A ++ [Display c] in
  t = sound_events t ++ [Display c] /\ display_events t = [c].
Proof.
  intros HA t. subst t. split.
  - rewrite sound_events_app, HA. cbn [sound_events filter].
    now rewrite app_nil_r.
  - unfold display_events. rewrite flat_map_app.
    fold (display_events A). now rewrite (sound_only_no_display A HA).
Qed.

(** Every cycler ends with one display call, its only one, after
    everything it sends to the sound transport.  If [mystring] is playing
    it draws the play screen for [mystring]'s open note plus [tpose_offset]
    plus [myoffset]; otherwise it prints the open notes of the two melody
    voices, the drone and the trompette, the three offsets, and these four
    voices' mute flags as the cycler has just set them. *)
Theorem run_op_display_last
    (cfg : build) (d dm : Z) (o : mute_op) (g : globals) :
  let r := run_op cfg d dm o g in
  let g' := state r in
  let c :=
    if is_playing (mystring g)
    then draw_play_screen
           (Int.add (Int.add (open_note (mystring g)) (tpose_offset g))
              (myoffset g))
           (play_screen_type g) false
    else print_display
           (open_note (mystring g)) (open_note (mylowstring g))
           (open_note (mydrone g)) (open_note (mytromp g))
           (tpose_offset g) (capo_offset g) (myoffset g)
           (mute_on (mystring g')) (mute_on (mylowstring g'))
           (mute_on (mydrone g')) (mute_on (mytromp g')) in
  trace r = sound_events (trace r) ++ [Display c] /\
  display_events (trace r) = [c].
Proof.
  intros r g' c.
  assert (E : r = run_op cfg d dm o g) by reflexivity.
  subst c g'. clearbody r. revert E.
  open_globals g.
  destruct o; exec; intros ->; exec_step;
    rewrite <- ?app_assoc; cbn [app];
    rewrite ?app_assoc;
    first
      [ split; reflexivity
      | apply sound_then_display;
        rewrite ?sound_events_app, ?sound_events_soundOff,
          ?sound_events_soundOn;
        reflexivity ].
Qed.

(** ** What the cyclers leave alone *)

(** No cycler changes a voice's name, open note, channel, volume or
    trigger gain, nor the offsets and the screen type; the buzz voice
    changes in its mute flag at most.  The playing flags of [mystring] and
    [mydrone] are kept.  Those of [mylowstring] and [mytromp] are kept when
    they equal the flag of [mystring], respectively [mydrone], which the
    cyclers test in their stead: from melody mode 1 a playing [mystring]
    makes [cycle_mel_mute] start a silent [mylowstring]. *)
Theorem run_op_frame (cfg : build) (d dm : Z) (o : mute_op) (g : globals) :
  let g' := state (run_op cfg d dm o g) in
  (forall p : string_ptr,
      name (deref p g') = name (deref p g) /\
      open_note (deref p g') = open_note (deref p g) /\
      midi_channel (deref p g') = midi_channel (deref p g) /\
      midi_volume (deref p g') = midi_volume (deref p g) /\
      trigger_volume (deref p g') = trigger_volume (deref p g)) /\
  (tpose_offset g' = tpose_offset g /\ capo_offset g' = capo_offset g /\
   myoffset g' = myoffset g /\ play_screen_type g' = play_screen_type g) /\
  with_mute_on false (mybuzz g') = with_mute_on false (mybuzz g) /\
  is_playing (mystring g') = is_playing (mystring g) /\
  is_playing (mydrone g') = is_playing (mydrone g) /\
  (is_playing (mylowstring g) = is_playing (mystring g) ->
   is_playing (mylowstring g') = is_playing (mylowstring g)) /\
  (is_playing (mytromp g) = is_playing (mydrone g) ->
   is_playing (mytromp g') = is_playing (mytromp g)) /\
  (o = op_cycle_mel_mute -> mel_mode g = 1 ->
   is_playing (mystring g) = true -> is_playing (mylowstring g') = true).
Proof.
  intros g'.
  assert (E : g' = state (run_op cfg d dm o g)) by reflexivity.
  clearbody g'. revert E.
  open_globals g.
  destruct o; exec; mode_facts; intros ->; exec_step.
  all: split; [intros []; repeat split|].
  all: split; [repeat split|].
  all: split; [reflexivity|].
  all: split; [reflexivity|].
  all: split; [reflexivity|].
  all: split; [intros H; try reflexivity; congruence|].
  all: split; [intros H; try reflexivity; congruence|].
  all: intros Ho Hm Hp; try discriminate Ho; try reflexivity;
    try discriminate Hp; lia.
Qed.

Lemma run_op_frame_witness :
  is_playing
    (mylowstring
       (state (run_op MIDI_OUT 0 0 op_cycle_mel_mute demo_high_started)))
  = true.
Proof.
  pose proof (run_op_frame MIDI_OUT 0 0 op_cycle_mel_mute demo_high_started)
    as H.
  cbv zeta in H.
  destruct H as (_ & _ & _ & _ & _ & _ & _ & H).
  apply H; reflexivity.
Defined.

(** ** Muting a playing voice *)

(** In the branches that only mute ([cycle_mel_mute] from mode 0,
    [cycle_drone_tromp_mute] from mode 0, [cycle_drone_mute] from modes 0
    and 2, [cycle_tromp_mute] from mode 0) no note-on is sent and no track
    is started; if the voice the cycler tests is playing, the note-off of
    the note it tracked is sent on [usbMIDI]. *)
Theorem run_op_mutes_only (cfg : build) (d dm : Z) (o : mute_op) (g : globals) :
  mutes_only o g = true ->
  let t := trace (run_op cfg d dm o g) in
  note_ons t = [] /\
  (forall c, In c (trigger_events t) ->
             exists trk gain, c = trackFade trk gain 200 true) /\
  (forall p, representative o g = Some p ->
             is_playing (deref p g) = true ->
             In (sendNoteOff (note_being_played (deref p g))
                   (midi_volume (deref p g)) (midi_channel (deref p g)))
                (note_offs_on usbMIDI t)).
Proof.
  intros H t. subst t. revert H.
  open_globals g. unfold mutes_only, representative.
  destruct o; exec; mode_facts; try discriminate; try lia; intros _;
    rewrite ?soundOn_events_muted by reflexivity;
    rewrite ?soundOff_events_eq;
    cbn [open_note midi_volume midi_channel note_being_played
         trigger_volume mute_on app];
    (split; [destruct cfg; reflexivity|]);
    (split;
     [ intros c Hc; destruct cfg; cbn in Hc;
       repeat (destruct Hc as [<- | Hc]; [eexists; eexists; reflexivity|]);
       contradiction
     | intros p [= <-] Hp; try discriminate Hp;
       destruct cfg; cbn; auto ]).
Qed.

Lemma run_op_mutes_only_witness :
  note_ons
    (trace (run_op MIDI_OUT 0 0 op_cycle_drone_tromp_mute demo_playing_key5))
  = [].
Proof.
  pose proof (run_op_mutes_only MIDI_OUT 0 0 op_cycle_drone_tromp_mute
                demo_playing_key5 eq_refl) as H.
  cbv zeta in H. exact (proj1 H).
Defined.

(** ** Any number of calls *)

Lemma times_S {St : Type} (n : nat) (m : Eff St unit) (g : St) :
  state (times (S n) m g) = state (times n m (state (m g))).
Proof.
  cbn [times]. unfold bind, state.
  destruct (m g) as [[u g1] e1]. cbn [fst snd].
  destruct (times n m g1) as [[u2 g2] e2]. reflexivity.
Qed.

Section ManyCalls.

Variable cfg : build.
Variables d dm : Z.

Lemma cycle_mel_mute_next (g : globals) :
  0 <= mel_mode g <= 2 ->
  let g1 := state (cycle_mel_mute cfg d dm g) in
  mel_mode g1 = (mel_mode g + 1) mod 3 /\ mel_consistent g1.
Proof.
  intros Hm g1.
  destruct (cycle_mel_mute_step cfg d dm g) as (H0 & H1 & H2).
  fold g1 in H0, H1, H2. unfold mel_consistent.
  assert (mel_mode g = 0 \/ mel_mode g = 1 \/ mel_mode g = 2)
    as [E | [E | E]] by lia; rewrite E.
  - destruct (H0 E) as (-> & -> & ->). repeat split; lia.
  - destruct (H1 E) as (-> & -> & ->). repeat split; lia.
  - destruct (H2 E) as (-> & -> & ->). repeat split; lia.
Qed.

Lemma cycle_drone_tromp_mute_next (g : globals) :
  0 <= drone_mode g <= 3 ->
  let g1 := state (cycle_drone_tromp_mute cfg d dm g) in
  drone_mode g1 = (drone_mode g + 1) mod 4 /\ drone_consistent g1.
Proof.
  intros Hm g1.
  destruct (cycle_drone_tromp_mute_step cfg d dm g) as (H0 & H1 & H2 & H3).
  fold g1 in H0, H1, H2, H3. unfold drone_consistent.
  assert (drone_mode g = 0 \/ drone_mode g = 1 \/
          drone_mode g = 2 \/ drone_mode g = 3)
    as [E | [E | [E | E]]] by lia; rewrite E.
  - destruct (H0 E) as (-> & -> & -> & ->). repeat split; lia.
  - destruct (H1 E) as (-> & -> & -> & ->). repeat split; lia.
  - destruct (H2 E) as (-> & -> & -> & ->). repeat split; lia.
  - destruct (H3 E) as (-> & -> & -> & ->). repeat split; lia.
Qed.

End ManyCalls.

(** From any melody mode in 0..2, whatever the mute flags were, [n] calls
    of [cycle_mel_mute] with [n] at least 1 leave the mode
    [(mel_mode + n) mod 3] and the melody voices muted as that mode says:
    the cycle has period 3 from each of its modes, not only from mode 0. *)
Theorem cycle_mel_mute_n_calls
    (cfg : build) (d dm : Z) (n : nat) (g : globals) :
  0 <= mel_mode g <= 2 ->
  let g' := state (times (S n) (cycle_mel_mute cfg d dm) g) in
  mel_mode g' = (mel_mode g + Z.of_nat (S n)) mod 3 /\
  mute_on (mystring g') = high_muted_in (mel_mode g') /\
  mute_on (mylowstring g') = low_muted_in (mel_mode g').
Proof.
  intros Hm g'.
  assert (H : mel_mode g' = (mel_mode g + Z.of_nat (S n)) mod 3 /\
              mel_consistent g').
  { subst g'. revert g Hm. induction n as [|n IH]; intros g Hm.
    - rewrite times_S. cbn [times ret state fst snd].
      exact (cycle_mel_mute_next cfg d dm g Hm).
    - rewrite times_S.
      destruct (cycle_mel_mute_next cfg d dm g Hm) as (E1 & C1).
      cbv zeta in E1, C1.
      destruct (IH _ (proj1 C1)) as (E2 & C2).
      split; [|exact C2].
      rewrite E2, E1, Z.add_mod_idemp_l by lia.
      f_equal. lia. }
  destruct H as (E & _ & Hh & Hl). auto.
Qed.

Lemma cycle_mel_mute_n_calls_witness :
  mel_mode (state (times 7 (cycle_mel_mute MIDI_OUT 0 0) demo_playing_key5))
  = 0.
Proof.
  pose proof (cycle_mel_mute_n_calls MIDI_OUT 0 0 6 demo_playing_key5
                ltac:(cbn; lia)) as H.
  cbv zeta in H. exact (proj1 H).
Defined.

(** From any drone mode in 0..3, whatever the mute flags were, [n] calls
    of [cycle_drone_tromp_mute] with [n] at least 1 leave the mode
    [(drone_mode + n) mod 4] and the drone, the trompette and the buzz
    muted as that mode says. *)
Theorem cycle_drone_tromp_mute_n_calls
    (cfg : build) (d dm : Z) (n : nat) (g : globals) :
  0 <= drone_mode g <= 3 ->
  let g' := state (times (S n) (cycle_drone_tromp_mute cfg d dm) g) in
  drone_mode g' = (drone_mode g + Z.of_nat (S n)) mod 4 /\
  mute_on (mydrone g') = drone_muted_in (drone_mode g') /\
  mute_on (mytromp g') = tromp_muted_in (drone_mode g') /\
  mute_on (mybuzz g') = tromp_muted_in (drone_mode g').
Proof.
  intros Hm g'.
  assert (H : drone_mode g' = (drone_mode g + Z.of_nat (S n)) mod 4 /\
              drone_consistent g').
  { subst g'. revert g Hm. induction n as [|n IH]; intros g Hm.
    - rewrite times_S. cbn [times ret state fst snd].
      exact (cycle_drone_tromp_mute_next cfg d dm g Hm).
    - rewrite times_S.
      destruct (cycle_drone_tromp_mute_next cfg d dm g Hm) as (E1 & C1).
      cbv zeta in E1, C1.
      destruct (IH _ (proj1 C1)) as (E2 & C2).
      split; [|exact C2].
      rewrite E2, E1, Z.add_mod_idemp_l by lia.
      f_equal. lia. }
  destruct H as (E & _ & Hd & Ht & Hb). auto.
Qed.

Lemma cycle_drone_tromp_mute_n_calls_witness :
  drone_mode
    (state (times 6 (cycle_drone_tromp_mute MIDI_OUT 0 0) demo_drones_off))
  = 3.
Proof.
  pose proof (cycle_drone_tromp_mute_n_calls MIDI_OUT 0 0 5 demo_drones_off
                ltac:(cbn; lia)) as H.
  cbv zeta in H. exact (proj1 H).
Defined.

(** ** The keybox layout *)

(** [num_keys] is the length of [pin_array] less one, as its comment asks;
    slot 0 is the unused -1 and every key has a pin of its own; the keys
    with a role (X, A, B, 1 to 6, T-UP, T-DOWN) are eleven different keys
    of the keybox. *)
Theorem keybox_layout :
  Z.of_nat (List.length pin_array) = num_keys + 1 /\
  hd 0 pin_array = -1 /\
  Forall (fun pin => 0 < pin) (tl pin_array) /\
  NoDup pin_array /\
  Forall (fun i => 0 <= i < num_keys) role_indexes /\
  NoDup role_indexes.
Proof.
  split; [reflexivity|]. split; [reflexivity|].
  split; [repeat constructor|].
  split.
  - unfold pin_array.
    repeat (constructor;
            [ intros H; cbn [In] in H;
              repeat (destruct H as [H | H]; [discriminate H|]); exact H |]).
    constructor.
  - split.
    + repeat constructor; vm_compute; discriminate.
    + vm_compute.
      repeat (constructor;
              [ intros H; cbn [In] in H;
                repeat (destruct H as [H | H]; [discriminate H|]); exact H |]).
      constructor.
Qed.
